(** * Chronic pain assessment backend: qualification rules, sanitizer,
      CSRF token store and rate limiter

    A shallow embedding of the decision logic of
    [backend/app/services/qualification.py], [backend/app/utils/sanitizer.py],
    [backend/app/routers/csrf.py] and [backend/app/middleware/rate_limiter.py],
    followed by the properties stated about them.

    Conventions of the embedding:
    - a Python [str] is a [string]; each character is a code point in 0..255;
    - [Optional[T]] is [option T], [None] is the absent value;
    - a Python [dict] with string keys is a [gmap string _];
    - the wall clock is an explicit argument [now] of every operation that
      reads it; [datetime] instants are integers (microseconds), the float
      of [time.time()] is the rational number of seconds it denotes, and the
      float arithmetic whose value the program returns is rounded as
      binary64 rounds it;
    - an operation that mutates a module-level or instance dictionary takes
      the dictionary and returns the new one next to its result. *)

From Stdlib Require Import ZArith QArith Qabs Lqa Lia Bool Ascii String List.
From stdpp Require Import gmap strings list fin_maps.

Local Open Scope string_scope.
Local Open Scope list_scope.

(** ** Python values shared by the modules *)

Module Py.

(** [o == s] for an [Optional[str]] on the left and a string literal on the
    right: [None] equals no string. *)
Definition eq_lit (o : option string) (s : string) : bool :=
  match o with
  | Some x => String.eqb x s
  | None => false
  end.

(** [o in [s1, ..., sn]] for a list of string literals. *)
Definition in_lits (o : option string) (l : list string) : bool :=
  existsb (eq_lit o) l.

(** [x is False] for an [Optional[bool]]. *)
Definition is_False (o : option bool) : bool :=
  match o with
  | Some false => true
  | _ => false
  end.

End Py.

(** ** services/qualification.py *)

Module Qualification.

(** [models.QualificationStatus] *)
Inductive QualificationStatus : Set :=
| QUALIFIED
| DISQUALIFIED
| PENDING.

Definition determine_qualification_status
    (has_budget : option bool) (budget_range urgency : option string)
  : QualificationStatus :=
  if Py.is_False has_budget then DISQUALIFIED
  else if Py.eq_lit budget_range "under-5k" then DISQUALIFIED
  else if Py.in_lits budget_range ["15k-30k"; "over-30k"] then QUALIFIED
  else if Py.in_lits urgency ["immediate"; "within-month"] then QUALIFIED
  else if Py.eq_lit budget_range "5k-15k" || Py.eq_lit urgency "few-months"
  then PENDING
  else PENDING.

Definition get_disqualification_reason
    (has_budget : option bool) (budget_range urgency : option string)
  : option string :=
  if Py.is_False has_budget then Some "No budget allocated for treatment"
  else if Py.eq_lit budget_range "under-5k"
  then Some "Budget below minimum treatment cost"
  else None.

End Qualification.

(** ** Python text: character classes, slicing, stripping, [re], [html] *)

Module Text.

(** The double quote, and the two quote characters. *)
Definition dquote : ascii := "034"%char.
Definition quotes : string := String dquote "'".

(** Code point of a character. *)
Definition ord (c : ascii) : N := N_of_ascii c.

Definition between (lo hi : N) (c : ascii) : bool :=
  (lo <=? ord c)%N && (ord c <=? hi)%N.

Definition one_of (cs : string) (c : ascii) : bool :=
  existsb (Ascii.eqb c) (list_ascii_of_string cs).

(** [str.isspace] on one character, which is also the class [\s] of [re] on
    text: TAB, LF, VT, FF, CR, the separators FS..US, the space, NEL and NBSP. *)
Definition is_space (c : ascii) : bool :=
  between 9 13 c || between 28 32 c || (ord c =? 133)%N || (ord c =? 160)%N.

(** The class [\d]: the decimal digits. *)
Definition is_decimal (c : ascii) : bool := between 48 57 c.

(** [str.isalpha] on one character. *)
Definition is_alpha (c : ascii) : bool :=
  between 65 90 c || between 97 122 c
  || (ord c =? 170)%N || (ord c =? 181)%N || (ord c =? 186)%N
  || between 192 214 c || between 216 246 c || between 248 255 c.

(** Digits and numerics that are not decimal: the superscripts 2, 3, 1 and
    the fractions 1/4, 1/2, 3/4. *)
Definition is_other_numeric (c : ascii) : bool :=
  between 178 179 c || (ord c =? 185)%N || between 188 190 c.

(** The class [\w]: alphanumeric characters and the underscore. *)
Definition is_word (c : ascii) : bool :=
  is_alpha c || is_decimal c || is_other_numeric c || Ascii.eqb c "_".

(** Lower case of the letters A..Z; used for literals of a pattern compiled
    with [re.IGNORECASE], which are ASCII in this program. *)
Definition lower_ascii (c : ascii) : ascii :=
  if between 65 90 c then ascii_of_N (ord c + 32) else c.

(** [s[:n]]: a negative bound counts from the end. *)
Definition slice_to (s : string) (n : Z) : string :=
  if (n <? 0)%Z
  then String.substring 0 (Z.to_nat (Z.of_nat (String.length s) + n)) s
  else String.substring 0 (Z.to_nat n) s.

Fixpoint lstrip (s : string) : string :=
  match s with
  | String c s' => if is_space c then lstrip s' else s
  | EmptyString => EmptyString
  end.

Fixpoint rstrip (s : string) : string :=
  match s with
  | String c s' =>
      match rstrip s' with
      | EmptyString => if is_space c then EmptyString else String c EmptyString
      | r => String c r
      end
  | EmptyString => EmptyString
  end.

(** [s.strip()] *)
Definition strip (s : string) : string := rstrip (lstrip s).

(** [s.replace(c, r)] for a one-character [c]. *)
Fixpoint replace_char (c : ascii) (r : string) (s : string) : string :=
  match s with
  | String x s' =>
      if Ascii.eqb x c then r +:+ replace_char c r s'
      else String x (replace_char c r s')
  | EmptyString => EmptyString
  end.

(** The characters of [s] that satisfy [p], in order. *)
Fixpoint filter_chars (p : ascii -> bool) (s : string) : string :=
  match s with
  | String c s' => if p c then String c (filter_chars p s') else filter_chars p s'
  | EmptyString => EmptyString
  end.

(** Whether the character [c] occurs in [s]. *)
Fixpoint occurs (c : ascii) (s : string) : bool :=
  match s with
  | String x s' => Ascii.eqb x c || occurs c s'
  | EmptyString => false
  end.

(** [needle in hay] *)
Fixpoint contains (needle hay : string) : bool :=
  String.prefix needle hay
  || match hay with
     | String _ hay' => contains needle hay'
     | EmptyString => false
     end.

(** [str.lower] on one character: the letters A..Z and the accented capitals
    of 192..222, the multiplication sign (215) apart, move up by 32. *)
Definition lower_char (c : ascii) : ascii :=
  if between 65 90 c || (between 192 222 c && negb (ord c =? 215)%N)
  then ascii_of_N (ord c + 32) else c.

(** [s.lower()] *)
Fixpoint lower (s : string) : string :=
  match s with
  | String c s' => String (lower_char c) (lower s')
  | EmptyString => EmptyString
  end.

(** Whether every character of [s] satisfies [p]. *)
Fixpoint all_chars (p : ascii -> bool) (s : string) : bool :=
  match s with
  | String c s' => p c && all_chars p s'
  | EmptyString => true
  end.

End Text.

(** The fragment of [re] the program uses: a pattern is a sequence of
    one-character classes, each with a quantifier, matched by backtracking
    in the order of the [re] module (a greedy quantifier tries the longest
    repetition first, a lazy one the shortest). *)

Module Re.

Inductive quantifier : Set :=
| Once            (* x   *)
| Opt             (* x?  *)
| Star            (* x*  *)
| Plus            (* x+  *)
| LazyStar.       (* x*? *)

Record item : Type := Item { accepts : ascii -> bool; how : quantifier }.

Definition pattern : Type := list item.

(** Continuations get the text that is left and answer with the text left
    after the whole match, or [None] to ask for backtracking. *)
Definition cont : Type := string -> option string.

Fixpoint greedy (p : ascii -> bool) (k : cont) (s : string) : option string :=
  match s with
  | String c s' =>
      if p c then
        match greedy p k s' with
        | Some r => Some r
        | None => k s
        end
      else k s
  | EmptyString => k s
  end.

Fixpoint lazy (p : ascii -> bool) (k : cont) (s : string) : option string :=
  match k s with
  | Some r => Some r
  | None =>
      match s with
      | String c s' => if p c then lazy p k s' else None
      | EmptyString => None
      end
  end.

Definition once (p : ascii -> bool) (k : cont) : cont :=
  fun s =>
    match s with
    | String c s' => if p c then k s' else None
    | EmptyString => None
    end.

Definition opt (p : ascii -> bool) (k : cont) : cont :=
  fun s =>
    match once p k s with
    | Some r => Some r
    | None => k s
    end.

Fixpoint run (re : pattern) (k : cont) : cont :=
  match re with
  | [] => k
  | it :: re' =>
      let k' := run re' k in
      match how it with
      | Once => once (accepts it) k'
      | Opt => opt (accepts it) k'
      | Star => greedy (accepts it) k'
      | Plus => once (accepts it) (greedy (accepts it) k')
      | LazyStar => lazy (accepts it) k'
      end
  end.

(** Length of the match of [re] at the start of [s], if there is one. With
    [must_advance] an empty match is refused (and backtracked over), as the
    scanner asks right after an empty match. *)
Definition match_len (re : pattern) (must_advance : bool) (s : string)
  : option nat :=
  let accept : cont := fun rest =>
    if must_advance && (String.length rest =? String.length s)%nat
    then None else Some rest in
  match run re accept s with
  | Some rest => Some (String.length s - String.length rest)%nat
  | None => None
  end.

(** [re.sub(re, repl, s)] for a replacement text without group references.
    The scanner walks [s] from left to right; [skip] counts the characters
    of the current match that are still to be dropped. *)
Fixpoint sub_from (re : pattern) (repl : string) (skip : nat) (s : string)
  : string :=
  match skip, s with
  | S k, String _ s' => sub_from re repl k s'
  | S _, EmptyString => EmptyString
  | O, _ =>
      let copy_one :=
        match s with
        | String c s' => String c (sub_from re repl 0 s')
        | EmptyString => EmptyString
        end in
      let drop n :=
        match s with
        | String _ s' => sub_from re repl n s'
        | EmptyString => EmptyString
        end in
      match match_len re false s with
      | None => copy_one
      | Some (S n) => repl +:+ drop n
      | Some O =>
          repl +:+
          match match_len re true s with
          | Some (S n) => repl +:+ drop n
          | _ => copy_one
          end
      end
  end.

Definition sub (re : pattern) (repl : string) (s : string) : string :=
  sub_from re repl 0 s.

(** Builders for the patterns of the program. *)
Definition lit (c : ascii) : item := Item (Ascii.eqb c) Once.

(** A literal under [re.IGNORECASE]. *)
Definition lit_i (c : ascii) : item :=
  Item (fun x => Ascii.eqb (Text.lower_ascii x) (Text.lower_ascii c)) Once.

Definition lits_i (s : string) : pattern := map lit_i (list_ascii_of_string s).

Definition any_char : ascii -> bool := fun _ => true.

Definition none_of (cs : string) : ascii -> bool :=
  fun c => negb (Text.one_of cs c).

(** The anchor [$] at the end of a pattern: the end of the text, or the
    place before a line feed that ends the text. *)
Definition at_end : cont :=
  fun rest =>
    match rest with
    | EmptyString => Some rest
    | String c EmptyString => if Ascii.eqb c "010" then Some rest else None
    | _ => None
    end.

(** [bool(re.match(p, s))] for a pattern [p] that ends with [$]; [re] is the
    pattern without the anchor. ([re.match] starts at the start of the text,
    with or without a leading [^].) *)
Definition match_to_end (re : pattern) (s : string) : bool :=
  match run re at_end s with
  | Some _ => true
  | None => false
  end.

(** A continuation that, on text of the class [p], can only succeed by
    consuming the text to its end. *)
Definition to_the_end (p : ascii -> bool) (k : cont) : Prop :=
  forall u r,
    Text.all_chars p u = true -> k u = Some r -> r = EmptyString.

End Re.

(** [html.escape(s)] of the standard library, with its default [quote=True]:
    five replacements in this order, the ampersand first. *)
Module Html.

Definition escape (s : string) : string :=
  let s := Text.replace_char "&" "&amp;" s in
  let s := Text.replace_char "<" "&lt;" s in
  let s := Text.replace_char ">" "&gt;" s in
  let s := Text.replace_char Text.dquote "&quot;" s in
  Text.replace_char "'" "&#x27;" s.

End Html.

(** ** utils/sanitizer.py *)

Module Sanitizer.

(** [r'<script[^>]*>.*?</script>'] with [re.IGNORECASE | re.DOTALL] *)
Definition script_re : Re.pattern :=
  Re.lits_i "<script"
  ++ [Re.Item (Re.none_of ">") Re.Star; Re.lit_i ">";
      Re.Item Re.any_char Re.LazyStar]
  ++ Re.lits_i "</script>".

(** [r'on\w+\s*=\s*[Q\']?[^Q\']*[Q\']?'] with [re.IGNORECASE], where Q
    stands for the double quote character. *)
Definition handler_re : Re.pattern :=
  Re.lits_i "on"
  ++ [Re.Item Text.is_word Re.Plus;
      Re.Item Text.is_space Re.Star;
      Re.lit_i "=";
      Re.Item Text.is_space Re.Star;
      Re.Item (Text.one_of Text.quotes) Re.Opt;
      Re.Item (Re.none_of Text.quotes) Re.Star;
      Re.Item (Text.one_of Text.quotes) Re.Opt].

Definition sanitize_text (text : string) (max_length : Z) : string :=
  if String.eqb text EmptyString then EmptyString
  else
    let text := Text.slice_to text max_length in
    let text := Html.escape text in
    let text := Re.sub script_re EmptyString text in
    let text := Re.sub handler_re EmptyString text in
    Text.strip text.

(** The characters [r'[^\d\s\-\+\(\)]'] does not match. *)
Definition phone_char (c : ascii) : bool :=
  Text.is_decimal c || Text.is_space c || Text.one_of "-+()" c.

(** [r'[^\d\s\-\+\(\)]'] *)
Definition phone_re : Re.pattern :=
  [Re.Item (fun c => negb (phone_char c)) Re.Once].

Definition sanitize_phone (phone : option string) : option string :=
  match phone with
  | None | Some EmptyString => None
  | Some phone =>
      let phone := Re.sub phone_re EmptyString phone in
      if String.eqb phone EmptyString then None else Some (Text.strip phone)
  end.

(** The characters of the class [[^\s@]]. *)
Definition email_char (c : ascii) : bool :=
  negb (Text.is_space c || Ascii.eqb c "@").

(** [r'^[^\s@]+@[^\s@]+\.[^\s@]+$'], without its anchors *)
Definition email_re : Re.pattern :=
  [Re.Item email_char Re.Plus;
   Re.lit "@";
   Re.Item email_char Re.Plus;
   Re.lit ".";
   Re.Item email_char Re.Plus].

Section Email.

(** [html.unescape] of the standard library. *)
Variable html_unescape : string -> string.

Definition sanitize_email (email : string) : string :=
  if String.eqb email EmptyString then EmptyString
  else
    let email := Text.strip (Text.lower email) in
    let email := html_unescape email in
    if negb (Re.match_to_end email_re email) then EmptyString
    else email.

End Email.

End Sanitizer.

(** ** models.py, the validation helpers *)

Module Models.

(** [r"^[^\s@]+@[^\s@]+\.[^\s@]+$"], the pattern of the sanitizer. *)
Definition validate_email (email : string) : bool :=
  Re.match_to_end Sanitizer.email_re email.

(** The class [[\d\s\-\+\(\)]], the characters the phone sanitizer keeps. *)
Definition phone_class : ascii -> bool := Sanitizer.phone_char.

(** [r"^[\d\s\-\+\(\)]{10,}$"], without its anchors: [x{10,}] is ten times
    [x], then [x*]. *)
Definition phone_re : Re.pattern :=
  repeat (Re.Item phone_class Re.Once) 10 ++ [Re.Item phone_class Re.Star].

Definition validate_phone (phone : string) : bool :=
  Re.match_to_end phone_re phone.

End Models.

(** ** routers/csrf.py *)

Module Csrf.

(** A [datetime] instant, in microseconds. *)
Abbreviation datetime := Z.

(** [timedelta(minutes=m)] *)
Definition minutes (m : Z) : Z := (m * 60 * 1000000)%Z.

Definition TOKEN_EXPIRY_MINUTES : Z := 30.

(** The cookie written by [response.set_cookie]. *)
Record cookie : Type := Cookie {
  cookie_key : string;
  cookie_value : string;
  max_age : Z;
  httponly : bool;
  secure : bool;
  samesite : string
}.

(** The body returned by the token endpoints; [expiresAt] is kept as the
    instant it prints. *)
Record token_body : Type := TokenBody {
  token : string;
  expiresAt : datetime
}.

Section Store.

(** [hashlib.sha256(token.encode()).hexdigest()] *)
Variable sha256_hexdigest : string -> string.

(** [current_time] is the reading of [datetime.utcnow()]. *)
Definition clean_expired_tokens
    (csrf_tokens : gmap string datetime) (current_time : datetime)
  : gmap string datetime :=
  let expired_tokens :=
    omap (fun '(token_hash, expiry) =>
            if (expiry <? current_time)%Z then Some token_hash else None)
         (map_to_list csrf_tokens) in
  fold_left (fun m token_hash => delete token_hash m) expired_tokens csrf_tokens.

(** [new_token] is the value of [secrets.token_urlsafe(32)]; [clean_time] and
    [issue_time] are the two successive readings of the clock. *)
Definition generate_csrf_token
    (csrf_tokens : gmap string datetime) (clean_time issue_time : datetime)
    (new_token : string)
  : (string * datetime) * gmap string datetime :=
  let csrf_tokens := clean_expired_tokens csrf_tokens clean_time in
  let expiry := (issue_time + minutes TOKEN_EXPIRY_MINUTES)%Z in
  let token_hash := sha256_hexdigest new_token in
  ((new_token, expiry), <[token_hash := expiry]> csrf_tokens).

(** [GET /csrf-token]: the body, the cookies of the response, the store. *)
Definition get_csrf_token
    (csrf_tokens : gmap string datetime) (response : list cookie)
    (clean_time issue_time : datetime) (new_token : string)
  : token_body * list cookie * gmap string datetime :=
  let '((tok, expiry), csrf_tokens) :=
    generate_csrf_token csrf_tokens clean_time issue_time new_token in
  let response :=
    response ++ [Cookie "csrf_token" tok (TOKEN_EXPIRY_MINUTES * 60)
                        true true "strict"] in
  (TokenBody tok expiry, response, csrf_tokens).

(** [POST /csrf-token/refresh] *)
Definition refresh_csrf_token
    (csrf_tokens : gmap string datetime) (response : list cookie)
    (clean_time issue_time : datetime) (new_token : string)
  : token_body * list cookie * gmap string datetime :=
  get_csrf_token csrf_tokens response clean_time issue_time new_token.

(** [now] is the reading of [datetime.utcnow()]; an absent token is [None]. *)
Definition verify_csrf_token
    (csrf_tokens : gmap string datetime) (now : datetime)
    (token : option string)
  : bool * gmap string datetime :=
  match token with
  | None | Some EmptyString => (false, csrf_tokens)
  | Some token =>
      let token_hash := sha256_hexdigest token in
      match csrf_tokens !! token_hash with
      | None => (false, csrf_tokens)
      | Some expiry =>
          if (expiry <? now)%Z
          then (false, delete token_hash csrf_tokens)
          else (true, csrf_tokens)
      end
  end.

End Store.

End Csrf.

(** ** config.py, the part the rate limiter reads *)

Module Config.

Record Settings : Type := {
  RATE_LIMIT_ENABLED : bool;
  RATE_LIMIT_SUBMIT_ASSESSMENT : Z;
  RATE_LIMIT_SAVE_PROGRESS : Z;
  RATE_LIMIT_SEND_EMAIL : Z;
  RATE_LIMIT_HEALTH : Z
}.

(** The settings when the environment sets none of the variables. *)
Definition default_settings : Settings := {|
  RATE_LIMIT_ENABLED := true;
  RATE_LIMIT_SUBMIT_ASSESSMENT := 5;
  RATE_LIMIT_SAVE_PROGRESS := 30;
  RATE_LIMIT_SEND_EMAIL := 3;
  RATE_LIMIT_HEALTH := 100
|}.

End Config.

(** ** Python floats: binary64 arithmetic on the numbers floats denote *)

Module Float64.

(** [p / q] rounded to the nearest integer, ties to the even one, for
    [0 <= p] and [0 < q]. *)
Definition half_even (p q : Z) : Z :=
  let f := (p / q)%Z in
  match (2 * (p mod q) ?= q)%Z with
  | Lt => f
  | Gt => (f + 1)%Z
  | Eq => if Z.even f then f else (f + 1)%Z
  end.

(** Every finite binary64 number is a whole multiple of [2^-1074]. *)
Definition scale : Z := (2 ^ 1074)%Z.

(** The magnitude [n / d] rounded to binary64, in units of [2^-1074]: a
    significand of at most 53 bits, and of fewer below [2^-1022]. *)
Definition round_magnitude (n : Z) (d : positive) : Z :=
  let p := (n * scale)%Z in
  let shift := Z.max (Z.log2 (p / Zpos d) - 52) 0 in
  (half_even p (Zpos d * 2 ^ shift) * 2 ^ shift)%Z.

(** The binary64 number nearest to [x], ties to even; [None] when it is out
    of range, where float arithmetic gives an infinity and the conversion of
    an [int] raises [OverflowError]. *)
Definition round (x : Q) : option Q :=
  let m := round_magnitude (Z.abs (Qnum x)) (Qden x) in
  if (m <? 2 ^ 2098)%Z
  then Some (Qmake (Z.sgn (Qnum x) * m) (Z.to_pos scale))
  else None.

(** [x + y] and [x - y] on floats, [float(z)] on an [int]. *)
Definition add (x y : Q) : option Q := round (x + y).
Definition sub (x y : Q) : option Q := round (x - y).
Definition of_int (z : Z) : option Q := round (inject_Z z).

End Float64.

(** ** middleware/rate_limiter.py *)

Module RateLimiter.
Import Config.

(** Comparison of two clock readings. *)
Definition float_lt (x y : Q) : bool := negb (Qle_bool y x).
Definition float_gt (x y : Q) : bool := float_lt y x.

(** [int(x)]: truncation towards zero. *)
Definition int (x : Q) : Z := Z.quot (Qnum x) (Zpos (Qden x)).

(** What a call does: it returns a value or raises. *)
Inductive exn : Set := ValueError | OverflowError.

Inductive outcome (A : Type) : Type :=
| Returns (a : A)
| Raises (e : exn).
Arguments Returns {A} a.
Arguments Raises {A} e.

(** [min(l)]: the first least element; [None] stands for the [ValueError]
    on an empty list. *)
Definition min (l : list Q) : option Q :=
  match l with
  | [] => None
  | x :: l' => Some (fold_left (fun m y => if float_lt y m then y else m) l' x)
  end.

(** The instance: [self.requests] and [self.window_seconds]. *)
Record t : Type := Build {
  requests : gmap string (list Q);
  window_seconds : Z
}.

(** [RateLimiter()] *)
Definition init : t := {| requests := ∅; window_seconds := 900 |}.

(** [oldest_request + self.window_seconds - now] in float arithmetic: the
    window length is converted to a float, the sum is rounded, the
    difference is rounded. [None] when a result is out of range: [int] of
    an infinity then raises [OverflowError], as the conversion of a window
    length too large for a float does. *)
Definition retry_delay (oldest_request : Q) (window_seconds : Z) (now : Q)
  : option Q :=
  match Float64.of_int window_seconds with
  | None => None
  | Some w =>
      match Float64.add oldest_request w with
      | None => None
      | Some s => Float64.sub s now
      end
  end.

(** [f"{ip}:{endpoint}"] *)
Definition key_of (ip endpoint : string) : string :=
  ip +:+ ":" +:+ endpoint.

(** [[req_time for req_time in l if req_time > window_start]] *)
Definition in_window (window_start : Q) (l : list Q) : list Q :=
  List.filter (fun req_time => float_gt req_time window_start) l.

Section WithSettings.

Variable settings : Settings.

Definition get_limit (endpoint : string) : Z :=
  if Text.contains "/api/assessment/submit" endpoint
  then RATE_LIMIT_SUBMIT_ASSESSMENT settings
  else if Text.contains "/api/assessment/save-progress" endpoint
  then RATE_LIMIT_SAVE_PROGRESS settings
  else if Text.contains "/api/email/send-results" endpoint
  then RATE_LIMIT_SEND_EMAIL settings
  else if Text.contains "/health" endpoint
  then RATE_LIMIT_HEALTH settings
  else 60%Z.

(** [now] is the reading of [time.time()]. The window start [now -
    self.window_seconds] is taken without rounding: for a whole window
    length and a reading between 512 and 2^53 seconds the float subtraction
    is exact. *)
Definition check_rate_limit (self : t) (now : Q) (ip endpoint : string)
  : outcome (bool * Z) * t :=
  if negb (RATE_LIMIT_ENABLED settings) then (Returns (true, 0%Z), self)
  else
    let limit := get_limit endpoint in
    let key := key_of ip endpoint in
    let window_start := (now - inject_Z (window_seconds self))%Q in
    let reqs :=
      match requests self !! key with
      | None => <[key := []]> (requests self)
      | Some _ => requests self
      end in
    let kept := in_window window_start (default [] (reqs !! key)) in
    let reqs := <[key := kept]> reqs in
    if (limit <=? Z.of_nat (length kept))%Z then
      let self := Build reqs (window_seconds self) in
      match min kept with
      | None => (Raises ValueError, self)
      | Some oldest_request =>
          match retry_delay oldest_request (window_seconds self) now with
          | None => (Raises OverflowError, self)
          | Some delay =>
              let retry_after := int delay in
              (Returns (false, Z.max retry_after 0), self)
          end
      end
    else
      (Returns (true, 0%Z),
       Build (<[key := kept ++ [now]]> reqs) (window_seconds self)).

Definition get_remaining (self : t) (now : Q) (ip endpoint : string)
  : Z * t :=
  let key := key_of ip endpoint in
  let limit := get_limit endpoint in
  match requests self !! key with
  | None => (limit, self)
  | Some l =>
      let window_start := (now - inject_Z (window_seconds self))%Q in
      let kept := in_window window_start l in
      (Z.max (limit - Z.of_nat (length kept)) 0,
       Build (<[key := kept]> (requests self)) (window_seconds self))
  end.

Definition get_reset_time (self : t) (now : Q) : outcome Z :=
  match Float64.of_int (window_seconds self) with
  | None => Raises OverflowError
  | Some w =>
      match Float64.add now w with
      | None => Raises OverflowError
      | Some reset => Returns (int reset)
      end
  end.

(** Successive calls of [check_rate_limit] by one client on one endpoint,
    at the clock readings [times]: the outcomes in order, and the instance
    after the last call. *)
Fixpoint calls (self : t) (times : list Q) (ip endpoint : string)
  : list (outcome (bool * Z)) * t :=
  match times with
  | [] => ([], self)
  | now :: times' =>
      let '(o, self) := check_rate_limit self now ip endpoint in
      let '(os, self) := calls self times' ip endpoint in
      (o :: os, self)
  end.

End WithSettings.

(** What a call answers when its window [kept] is full. *)
Definition refusal (kept : list Q) (window_seconds : Z) (now : Q)
  : outcome (bool * Z) :=
  match min kept with
  | None => Raises ValueError
  | Some oldest_request =>
      match retry_delay oldest_request window_seconds now with
      | None => Raises OverflowError
      | Some delay => Returns (false, Z.max (int delay) 0)
      end
  end.



End RateLimiter.

(** * Properties *)

Section QualificationProps.

Import Qualification.

Example classify_over_30k :
  determine_qualification_status None (Some "over-30k") None = QUALIFIED.
Proof. reflexivity. Qed.

Example classify_mid_range :
  determine_qualification_status None (Some "5k-15k") None = PENDING.
Proof. reflexivity. Qed.

Example classify_all_absent :
  determine_qualification_status None None None = PENDING.
Proof. reflexivity. Qed.

(** The only ways to Disqualified are the first two rules. *)
Lemma disqualified_iff hb br ur :
  determine_qualification_status hb br ur = DISQUALIFIED <->
  Py.is_False hb = true \/ Py.eq_lit br "under-5k" = true.
Proof.
  unfold determine_qualification_status.
  destruct (Py.is_False hb); [tauto|].
  destruct (Py.eq_lit br "under-5k"); [tauto|].
  repeat match goal with |- context [if ?b then _ else _] => destruct b end;
    split; (discriminate || intros [?|?]; discriminate).
Qed.

Lemma reason_absent hb br ur :
  determine_qualification_status hb br ur <> DISQUALIFIED ->
  get_disqualification_reason hb br ur = None.
Proof.
  rewrite disqualified_iff. unfold get_disqualification_reason.
  destruct (Py.is_False hb); [tauto|].
  destruct (Py.eq_lit br "under-5k"); tauto.
Qed.

(** C1. Rule precedence of the classifier: an explicit [False] budget flag
    gives Disqualified whatever the range and urgency are (in particular
    for range "15k-30k" and urgency "immediate"), and the range "under-5k"
    gives Disqualified whatever the flag and the urgency are (in particular
    for an absent flag and urgency "immediate"). *)
Theorem classify_rule_precedence :
  (forall budget_range urgency,
      determine_qualification_status (Some false) budget_range urgency
      = DISQUALIFIED) /\
  determine_qualification_status (Some false) (Some "15k-30k") (Some "immediate")
  = DISQUALIFIED /\
  (forall has_budget urgency,
      determine_qualification_status has_budget (Some "under-5k") urgency
      = DISQUALIFIED) /\
  determine_qualification_status None (Some "under-5k") (Some "immediate")
  = DISQUALIFIED.
Proof.
  repeat split; try reflexivity.
  intros hb ur. apply disqualified_iff. right. reflexivity.
Qed.

(** C2. The reason is a non-empty text exactly when the classifier answers
    Disqualified; on inputs classified Qualified or Pending it is absent. *)
Theorem reason_iff_disqualified :
  forall has_budget budget_range urgency,
    ((exists r, get_disqualification_reason has_budget budget_range urgency
                = Some r /\ r <> EmptyString)
     <-> determine_qualification_status has_budget budget_range urgency
         = DISQUALIFIED) /\
    match determine_qualification_status has_budget budget_range urgency with
    | DISQUALIFIED => True
    | QUALIFIED | PENDING =>
        get_disqualification_reason has_budget budget_range urgency = None
    end.
Proof.
  intros hb br ur. split.
  - rewrite disqualified_iff. unfold get_disqualification_reason.
    destruct (Py.is_False hb); [|destruct (Py.eq_lit br "under-5k")].
    + split; [tauto|]. intros _. eexists. split; [reflexivity|discriminate].
    + split; [tauto|]. intros _. eexists. split; [reflexivity|discriminate].
    + split.
      * intros (r & Hr & _). discriminate.
      * intros [?|?]; discriminate.
  - destruct (determine_qualification_status hb br ur) eqn:Hs; [|exact I|];
      apply reason_absent; congruence.
Qed.

End QualificationProps.



(** ** Sanitizer *)

Section SanitizerProps.

Import Text Sanitizer.

Lemma sub_drop_class (p : ascii -> bool) (s : string) :
  Re.sub [Re.Item (fun c => negb (p c)) Re.Once] EmptyString s
  = filter_chars p s.
Proof.
  unfold Re.sub. induction s as [|c s IH]; [reflexivity|].
  cbn [Re.sub_from filter_chars].
  unfold Re.match_len. cbn [Re.run Re.how Re.accepts Re.once andb].
  destruct (p c); cbn [negb].
  - now rewrite IH.
  - replace (String.length (String c s) - String.length s)%nat with 1%nat
      by (cbn [String.length]; lia).
    exact IH.
Qed.

Lemma occurs_append c s1 s2 :
  occurs c (s1 +:+ s2) = occurs c s1 || occurs c s2.
Proof.
  induction s1 as [|x s1 IH]; [reflexivity|].
  change (String x s1 +:+ s2) with (String x (s1 +:+ s2)).
  cbn [occurs]. now rewrite IH, orb_assoc.
Qed.

Lemma replace_char_removes c r s :
  occurs c r = false -> occurs c (replace_char c r s) = false.
Proof.
  intros Hr. induction s as [|x s IH]; [reflexivity|].
  cbn [replace_char]. destruct (Ascii.eqb x c) eqn:E.
  - now rewrite occurs_append, Hr, IH.
  - cbn [occurs]. now rewrite E, IH.
Qed.

Lemma replace_char_keeps_absent c d r s :
  occurs c r = false -> occurs c s = false ->
  occurs c (replace_char d r s) = false.
Proof.
  intros Hr. induction s as [|x s IH]; [reflexivity|].
  cbn [occurs replace_char]. intros [Hx Hs]%orb_false_elim.
  destruct (Ascii.eqb x d).
  - now rewrite occurs_append, Hr, IH.
  - cbn [occurs]. now rewrite Hx, IH.
Qed.

Lemma escape_no_lt s : occurs "<" (Html.escape s) = false.
Proof.
  unfold Html.escape.
  do 3 (apply replace_char_keeps_absent; [reflexivity|]).
  now apply replace_char_removes.
Qed.

Lemma lower_ascii_lt c : Ascii.eqb (lower_ascii c) "<" = Ascii.eqb c "<".
Proof.
  destruct c as [[] [] [] [] [] [] [] []]; reflexivity.
Qed.

Lemma script_re_needs_lt s :
  occurs "<" s = false -> Re.sub script_re EmptyString s = s.
Proof.
  unfold Re.sub. induction s as [|c s IH]; [reflexivity|].
  cbn [occurs]. intros [Hc Hs]%orb_false_elim.
  cbn [Re.sub_from]. unfold Re.match_len.
  change (Re.run script_re) with
    (fun k => Re.once (Re.accepts (Re.lit_i "<")) (Re.run (tl script_re) k)).
  cbn [Re.once Re.accepts Re.lit_i].
  change (lower_ascii "<") with "<"%char.
  rewrite lower_ascii_lt, Hc. now rewrite IH.
Qed.

Lemma substring_length_le (n : nat) (s : string) :
  (String.length (String.substring 0 n s) <= n)%nat.
Proof.
  revert s. induction n as [|n IH]; intros [|c s]; cbn; try lia.
  specialize (IH s). lia.
Qed.

(** The scanner on patterns that can match the empty text: [re.sub('x*',
    '-', 'abxd')] is ['-a-b--d-']. *)
Example sub_empty_matches :
  Re.sub [Re.Item (Ascii.eqb "x") Re.Star] "-" "abxd" = "-a-b--d-".
Proof. vm_compute. reflexivity. Qed.

(** A script region in text that was not escaped is removed, whatever the
    case of the tag; the lazy body stops at the first closing tag. *)
Example sub_script_region :
  Re.sub script_re EmptyString "a<SCRIPT x>foo</script>b<script></Script>c"
  = "abc".
Proof. vm_compute. reflexivity. Qed.

Example sub_handler :
  Re.sub handler_re EmptyString "<img onclick = 'x y' z> on= one='a b onx=abc"
  = "<img  z> on= ".
Proof. vm_compute. reflexivity. Qed.

Example sanitize_text_empty : sanitize_text EmptyString 1000 = EmptyString.
Proof. reflexivity. Qed.

Example sanitize_text_handler :
  sanitize_text "hi onclick=go there" 1000 = "hi".
Proof. vm_compute. reflexivity. Qed.

(** C3, as stated, fails: on "<script>alert(1)</script>Hello" with maximum
    length 1000 the result is not "Hello". *)
Lemma sanitize_text_script_not_removed :
  sanitize_text "<script>alert(1)</script>Hello" 1000 <> "Hello".
Proof. vm_compute. discriminate. Qed.

(** C3, amended. On "<script>alert(1)</script>Hello" with maximum length
    1000 the result is the whole input, escaped:
    "&lt;script&gt;alert(1)&lt;/script&gt;Hello". Escaping runs before the
    removal of script regions and leaves no "<" for it to find, so on every
    escaped text that removal changes nothing. *)
Theorem sanitize_text_script_escaped :
  sanitize_text "<script>alert(1)</script>Hello" 1000
  = "&lt;script&gt;alert(1)&lt;/script&gt;Hello"
  /\ forall text,
       Re.sub script_re EmptyString (Html.escape text) = Html.escape text.
Proof.
  split; [vm_compute; reflexivity|].
  intros text. apply script_re_needs_lt, escape_no_lt.
Qed.

(** C10. The maximum length bounds the text before escaping only: the cut
    [text[:n]] has at most [n] characters, yet the result can be longer
    than [n], for instance on "&" or "<" with maximum length 1. *)
Theorem sanitize_text_exceeds_max_length :
  sanitize_text "&" 1 = "&amp;" /\
  sanitize_text "<" 1 = "&lt;" /\
  (exists text max_length,
      (0 <= max_length)%Z /\
      (max_length < Z.of_nat (String.length (sanitize_text text max_length)))%Z)
  /\ (forall text (n : nat),
        (String.length (slice_to text (Z.of_nat n)) <= n)%nat).
Proof.
  split; [vm_compute; reflexivity|].
  split; [vm_compute; reflexivity|].
  split.
  - exists "&", 1%Z. vm_compute. split; [discriminate|reflexivity].
  - intros text n. unfold slice_to.
    destruct (Z.ltb_spec (Z.of_nat n) 0) as [Hn|_]; [lia|].
    rewrite Nat2Z.id. apply substring_length_le.
Qed.

(** C9, as stated, fails: the input "abc" is not empty, and the result is
    absent instead of the cleaned text (which is empty here). *)
Lemma sanitize_phone_letters_absent :
  "abc" <> EmptyString /\
  sanitize_phone (Some "abc") = None /\
  sanitize_phone (Some "abc")
  <> Some (strip (filter_chars phone_char "abc")).
Proof. vm_compute. repeat split; discriminate. Qed.

(** C9, amended. The result is absent when the input is absent or empty,
    and also when no character of the input is a digit, a whitespace
    character, a hyphen, a parenthesis or a plus sign. Otherwise it is the
    text of those characters of the input, in order, then trimmed; that text
    is empty when only whitespace was kept, as on " ". Whitespace is every
    character of the class [\s], so a TAB inside the number is kept. *)
Theorem sanitize_phone_spec :
  sanitize_phone None = None /\
  sanitize_phone (Some EmptyString) = None /\
  (forall phone,
      phone <> EmptyString ->
      sanitize_phone (Some phone)
      = if String.eqb (filter_chars phone_char phone) EmptyString
        then None
        else Some (strip (filter_chars phone_char phone))) /\
  sanitize_phone (Some " ") = Some EmptyString /\
  sanitize_phone (Some (String "1" (String "009" "2")))
  = Some (String "1" (String "009" "2")).
Proof.
  split; [reflexivity|]. split; [reflexivity|].
  split; [|split; vm_compute; reflexivity].
  intros [|c phone] Hne; [congruence|].
  unfold sanitize_phone, phone_re. now rewrite sub_drop_class.
Qed.

(** The amended C9 at "+1 (555) 010-9999 ext 4". *)
Lemma sanitize_phone_spec_witness :
  sanitize_phone (Some "+1 (555) 010-9999 ext 4") = Some "+1 (555) 010-9999  4".
Proof.
  destruct sanitize_phone_spec as (_ & _ & H & _).
  rewrite (H "+1 (555) 010-9999 ext 4"); [|discriminate].
  vm_compute. reflexivity.
Defined.

End SanitizerProps.

(** ** CSRF token store *)

Section CsrfProps.

Import Csrf.

Variable sha256_hexdigest : string -> string.

Local Open Scope Z_scope.

Lemma lookup_fold_delete (l : list string) (m : gmap string datetime) k :
  fold_left (fun m h => delete h m) l m !! k
  = if decide (k ∈ l) then None else m !! k.
Proof.
  revert m. induction l as [|h l IH]; intros m; cbn [fold_left].
  - now rewrite decide_False by apply not_elem_of_nil.
  - rewrite IH. destruct (decide (k ∈ l)) as [Hin|Hnin].
    + rewrite decide_True by (rewrite elem_of_cons; tauto).
      reflexivity.
    + destruct (decide (k = h)) as [->|Hne].
      * rewrite decide_True by (rewrite elem_of_cons; tauto).
        apply lookup_delete_eq.
      * rewrite decide_False by (rewrite elem_of_cons; tauto).
        now apply lookup_delete_ne.
Qed.

Lemma lookup_clean_expired_tokens (m : gmap string datetime) now k :
  clean_expired_tokens m now !! k
  = match m !! k with
    | Some expiry => if expiry <? now then None else Some expiry
    | None => None
    end.
Proof.
  unfold clean_expired_tokens. rewrite lookup_fold_delete.
  destruct (decide _) as [Hin|Hnin].
  - apply list_elem_of_omap in Hin as ([h e] & Hm & Hf).
    apply elem_of_map_to_list in Hm.
    destruct (e <? now) eqn:E; [|discriminate].
    injection Hf as Hf. subst h. now rewrite Hm, E.
  - destruct (m !! k) as [e|] eqn:Hk; [|reflexivity].
    destruct (e <? now) eqn:E; [|reflexivity].
    exfalso. apply Hnin. apply list_elem_of_omap.
    exists (k, e). split; [now apply elem_of_map_to_list|].
    cbn. now rewrite E.
Qed.

Lemma verify_present (m : gmap string datetime) now token expiry :
  token <> EmptyString ->
  m !! sha256_hexdigest token = Some expiry ->
  verify_csrf_token sha256_hexdigest m now (Some token)
  = if expiry <? now then (false, delete (sha256_hexdigest token) m)
    else (true, m).
Proof.
  intros Hne Hm. destruct token as [|c token]; [congruence|].
  unfold verify_csrf_token. now rewrite Hm.
Qed.

Lemma verify_valid (m : gmap string datetime) now token expiry :
  token <> EmptyString ->
  m !! sha256_hexdigest token = Some expiry ->
  now <= expiry ->
  verify_csrf_token sha256_hexdigest m now (Some token) = (true, m).
Proof.
  intros Hne Hm Hle. rewrite (verify_present _ _ _ _ Hne Hm).
  destruct (Z.ltb_spec expiry now); [lia|reflexivity].
Qed.

(** C4. Verification answers false for an absent or empty token and for a
    token whose digest the store does not hold; for a digest whose expiry
    has passed it deletes the entry and answers false; otherwise it answers
    true and leaves the store as it is, so a second verification of the same
    token, at any instant up to its expiry, answers true again. *)
Theorem verify_csrf_token_spec
    (csrf_tokens : gmap string datetime) (now : datetime) :
  verify_csrf_token sha256_hexdigest csrf_tokens now None
  = (false, csrf_tokens) /\
  verify_csrf_token sha256_hexdigest csrf_tokens now (Some EmptyString)
  = (false, csrf_tokens) /\
  (forall token,
      token <> EmptyString ->
      csrf_tokens !! sha256_hexdigest token = None ->
      verify_csrf_token sha256_hexdigest csrf_tokens now (Some token)
      = (false, csrf_tokens)) /\
  (forall token expiry,
      token <> EmptyString ->
      csrf_tokens !! sha256_hexdigest token = Some expiry ->
      expiry < now ->
      verify_csrf_token sha256_hexdigest csrf_tokens now (Some token)
      = (false, delete (sha256_hexdigest token) csrf_tokens)) /\
  (forall token expiry,
      token <> EmptyString ->
      csrf_tokens !! sha256_hexdigest token = Some expiry ->
      now <= expiry ->
      verify_csrf_token sha256_hexdigest csrf_tokens now (Some token)
      = (true, csrf_tokens) /\
      forall later,
        later <= expiry ->
        verify_csrf_token sha256_hexdigest
          (snd (verify_csrf_token sha256_hexdigest csrf_tokens now (Some token)))
          later (Some token)
        = (true, csrf_tokens)).
Proof.
  split; [reflexivity|]. split; [reflexivity|].
  split; [|split].
  - intros [|c token] Hne Hm; [congruence|].
    unfold verify_csrf_token. now rewrite Hm.
  - intros token expiry Hne Hm Hlt. rewrite (verify_present _ _ _ _ Hne Hm).
    destruct (Z.ltb_spec expiry now); [reflexivity|lia].
  - intros token expiry Hne Hm Hle.
    rewrite (verify_valid _ _ _ _ Hne Hm Hle). split; [reflexivity|].
    intros later Hlater. cbn [snd].
    now apply verify_valid with expiry.
Qed.

(** C5. Refreshing is issuing: the refresh endpoint gives what the
    issuing endpoint gives. With a clock that does not run backwards, a
    token issued at [issue0] and the token of a later refresh at [issue1]
    are both accepted after the refresh, each at every instant up to its own
    expiry, thirty minutes after its issue. *)
Theorem refresh_keeps_previous_token
    (csrf_tokens : gmap string datetime) (response : list cookie)
    (clean0 issue0 clean1 issue1 : datetime) (token0 token1 : string)
    (now_old now_new : datetime) :
  token0 <> EmptyString ->
  token1 <> EmptyString ->
  issue0 <= clean1 ->
  clean1 <= issue1 ->
  issue1 <= now_old ->
  now_old <= issue0 + minutes TOKEN_EXPIRY_MINUTES ->
  now_new <= issue1 + minutes TOKEN_EXPIRY_MINUTES ->
  let '(body0, response0, store0) :=
    get_csrf_token sha256_hexdigest csrf_tokens response clean0 issue0 token0 in
  let '(body1, response1, store1) :=
    refresh_csrf_token sha256_hexdigest store0 response0 clean1 issue1 token1 in
  refresh_csrf_token sha256_hexdigest store0 response0 clean1 issue1 token1
  = get_csrf_token sha256_hexdigest store0 response0 clean1 issue1 token1 /\
  (token body0 = token0 /\
   expiresAt body0 = issue0 + minutes TOKEN_EXPIRY_MINUTES) /\
  (token body1 = token1 /\
   expiresAt body1 = issue1 + minutes TOKEN_EXPIRY_MINUTES) /\
  verify_csrf_token sha256_hexdigest store1 now_old (Some (token body0))
  = (true, store1) /\
  verify_csrf_token sha256_hexdigest store1 now_new (Some (token body1))
  = (true, store1).
Proof.
  intros Hne0 Hne1 H01 Hc1 Hold Hexp0 Hexp1.
  unfold refresh_csrf_token, get_csrf_token, generate_csrf_token.
  cbn [token expiresAt].
  set (e0 := issue0 + minutes TOKEN_EXPIRY_MINUTES) in *.
  set (e1 := issue1 + minutes TOKEN_EXPIRY_MINUTES) in *.
  assert (He : e0 <= e1).
  { unfold e0, e1. lia. }
  repeat split.
  - destruct (decide (sha256_hexdigest token1 = sha256_hexdigest token0))
      as [Heq|Hneq].
    + apply verify_valid with e1; [assumption| |lia].
      rewrite <- Heq. apply lookup_insert_eq.
    + apply verify_valid with e0; [assumption| |lia].
      rewrite lookup_insert_ne by assumption.
      rewrite lookup_clean_expired_tokens, lookup_insert_eq.
      destruct (Z.ltb_spec e0 clean1); [lia|reflexivity].
  - apply verify_valid with e1; [assumption| |lia].
    apply lookup_insert_eq.
Qed.

End CsrfProps.

(** C4 at a store with one entry, with the identity standing in for the
    digest. *)
Lemma verify_csrf_token_spec_witness :
  let store : gmap string Z := {[ "k" := 100%Z ]} in
  Csrf.verify_csrf_token id store 50 (Some "zz") = (false, store) /\
  Csrf.verify_csrf_token id store 200 (Some "k") = (false, delete "k" store) /\
  Csrf.verify_csrf_token id store 50 (Some "k") = (true, store) /\
  Csrf.verify_csrf_token id
    (snd (Csrf.verify_csrf_token id store 50 (Some "k"))) 100 (Some "k")
  = (true, store).
Proof.
  intros store.
  destruct (verify_csrf_token_spec id store 50)
    as (_ & _ & Hunknown & _ & Hvalid).
  destruct (verify_csrf_token_spec id store 200)
    as (_ & _ & _ & Hexpired & _).
  split; [apply Hunknown; [discriminate|reflexivity]|].
  split; [apply (Hexpired "k" 100%Z); [discriminate|reflexivity|lia]|].
  destruct (Hvalid "k" 100%Z) as [H1 H2]; [discriminate|reflexivity|lia|].
  split; [exact H1|apply H2; lia].
Defined.

(** C5 on an empty store: issue at 0, refresh at 10, both tokens checked
    at 20, with the identity standing in for the digest. *)
Lemma refresh_keeps_previous_token_witness :
  let store : gmap string Z :=
    <[ "b" := 1800000010%Z ]> {[ "a" := 1800000000%Z ]} in
  Csrf.verify_csrf_token id store 20 (Some "a") = (true, store) /\
  Csrf.verify_csrf_token id store 20 (Some "b") = (true, store).
Proof.
  intros store.
  pose proof (refresh_keeps_previous_token id ∅ [] 0 0 10 10 "a" "b" 20 20)
    as H.
  cbv beta iota zeta delta [Csrf.get_csrf_token Csrf.refresh_csrf_token
    Csrf.generate_csrf_token Csrf.token Csrf.expiresAt] in H.
  destruct H as (_ & _ & _ & Ha & Hb);
    try discriminate; try (vm_compute; discriminate).
  split; [exact Ha|exact Hb].
Defined.

(** ** Binary64 rounding *)

Section Float64Props.

Import Float64.

Local Open Scope Z_scope.

Lemma half_even_cases p q :
  0 < q ->
  half_even p q = p / q \/ (half_even p q = p / q + 1 /\ q <= 2 * (p mod q)).
Proof.
  intros Hq. unfold half_even.
  destruct (Z.compare_spec (2 * (p mod q)) q) as [He|Hlt|Hgt].
  - destruct (Z.even (p / q)); [now left|right; lia].
  - now left.
  - right. lia.
Qed.

Lemma half_even_low p q :
  0 < q -> half_even p q = p / q -> 2 * (p mod q) <= q.
Proof.
  intros Hq. unfold half_even.
  destruct (Z.compare_spec (2 * (p mod q)) q) as [He|Hlt|Hgt]; try lia.
Qed.

(** The rounded quotient is within half a unit of the quotient. *)
Lemma half_even_error p q :
  0 < q -> 2 * Z.abs (half_even p q * q - p) <= q.
Proof.
  intros Hq. pose proof (Z.div_mod p q ltac:(lia)) as Hdm.
  pose proof (Z.mod_pos_bound p q Hq) as Hm.
  destruct (half_even_cases p q Hq) as [Hf|[Hf Hhi]].
  - pose proof (half_even_low p q Hq Hf). rewrite Hf. nia.
  - rewrite Hf. nia.
Qed.

(** Rounding does not pass a whole upper bound. *)
Lemma half_even_le p q i : 0 < q -> p <= i * q -> half_even p q <= i.
Proof.
  intros Hq Hp. pose proof (Z.div_mod p q ltac:(lia)) as Hdm.
  pose proof (Z.mod_pos_bound p q Hq) as Hm.
  assert (Hdiv : p / q <= i) by (apply Z.div_le_upper_bound; lia).
  destruct (half_even_cases p q Hq) as [Hf|[Hf Hhi]]; rewrite Hf; [exact Hdiv|].
  destruct (Z.eq_dec (p / q) i) as [He|Hne]; [|lia]. nia.
Qed.

Lemma half_even_nonneg p q : 0 <= p -> 0 < q -> 0 <= half_even p q.
Proof.
  intros Hp Hq. pose proof (Z.div_pos p q Hp Hq).
  destruct (half_even_cases p q Hq) as [Hf|[Hf _]]; rewrite Hf; lia.
Qed.

Lemma half_even_exact k q : 0 < q -> half_even (k * q) q = k.
Proof.
  intros Hq. unfold half_even.
  rewrite Z.mod_mul, Z.div_mul, Z.mul_0_r by lia.
  destruct (Z.compare_spec 0 q); lia.
Qed.

(** The shift of a magnitude below [2^k] units. *)
Lemma shift_le n k :
  0 <= n -> 0 <= k -> n <= 2 ^ k -> Z.max (Z.log2 n - 52) 0 <= Z.max (k - 52) 0.
Proof.
  intros Hn Hk Hle.
  assert (Z.log2 n <= k).
  { rewrite <- (Z.log2_pow2 k) by lia. now apply Z.log2_le_mono. }
  lia.
Qed.

Lemma shift_lt n k :
  0 <= n -> 0 < k -> n < 2 ^ k -> Z.max (Z.log2 n - 52) 0 <= Z.max (k - 53) 0.
Proof.
  intros Hn Hk Hlt.
  destruct (Z.eq_dec n 0) as [->|Hne]; [cbn; lia|].
  assert (Z.log2 n < k) by (apply Z.log2_lt_pow2; lia).
  lia.
Qed.

Lemma round_magnitude_le n d k :
  0 <= n -> 0 <= k -> n * scale <= 2 ^ k * Zpos d ->
  0 <= round_magnitude n d <= 2 ^ k.
Proof.
  intros Hn Hk Hle. unfold round_magnitude.
  assert (Hs : 0 < scale) by (unfold scale; apply Z.pow_pos_nonneg; lia).
  set (p := n * scale) in *.
  assert (Hp : 0 <= p) by (unfold p; nia).
  assert (HN : 0 <= p / Zpos d <= 2 ^ k).
  { split; [apply Z.div_pos; lia|apply Z.div_le_upper_bound; lia]. }
  pose proof (shift_le (p / Zpos d) k ltac:(lia) Hk ltac:(lia)) as Hsh.
  set (shift := Z.max (Z.log2 (p / Zpos d) - 52) 0) in *.
  assert (Hshk : 0 <= shift <= k) by lia.
  assert (H2 : 0 < 2 ^ shift) by (apply Z.pow_pos_nonneg; lia).
  assert (Hsplit : 2 ^ k = 2 ^ (k - shift) * 2 ^ shift).
  { rewrite <- Z.pow_add_r by lia. f_equal. lia. }
  assert (Hq : 0 < Zpos d * 2 ^ shift) by nia.
  pose proof (half_even_nonneg p _ Hp Hq) as H0.
  pose proof (half_even_le p (Zpos d * 2 ^ shift) (2 ^ (k - shift)) Hq) as Hhe.
  assert (Hr : half_even p (Zpos d * 2 ^ shift) <= 2 ^ (k - shift)).
  { apply Hhe. rewrite Hsplit in Hle. nia. }
  rewrite Hsplit. split; [nia|]. apply Z.mul_le_mono_nonneg_r; lia.
Qed.

Lemma scale_pos : 0 < scale.
Proof. unfold scale. apply Z.pow_pos_nonneg; lia. Qed.

Lemma scale_to_pos : Zpos (Z.to_pos scale) = scale.
Proof. apply Z2Pos.id, scale_pos. Qed.

Lemma pow2_scale j : 0 <= j -> 2 ^ (j + 1074) = 2 ^ j * scale.
Proof. intros Hj. unfold scale. apply Z.pow_add_r; lia. Qed.


(** Below [2^52] the rounding error is at most a quarter. *)
Lemma round_error x :
  (Qabs x < inject_Z (2 ^ 52))%Q ->
  exists v, round x = Some v /\ (Qabs (v - x) <= 1 # 4)%Q.
Proof.
  intros Hx. destruct x as [n d].
  unfold Qabs, Qlt, inject_Z in Hx. cbn [Qnum Qden] in Hx.
  rewrite Z.mul_1_r in Hx.
  pose proof scale_pos as Hs.
  destruct (round_magnitude_le (Z.abs n) d (52 + 1074)) as [Hm0 Hm];
    [lia|lia|rewrite pow2_scale by lia; nia|].
  unfold round. cbn [Qnum Qden].
  assert (Hlt : 2 ^ (52 + 1074) < 2 ^ 2098) by (apply Z.pow_lt_mono_r; lia).
  destruct (Z.ltb_spec (round_magnitude (Z.abs n) d) (2 ^ 2098)) as [_|Hge];
    [|lia].
  eexists. split; [reflexivity|].
  unfold round_magnitude in *.
  set (p := Z.abs n * scale) in *.
  assert (Hp : 0 <= p) by (unfold p; nia).
  assert (HN : 0 <= p / Zpos d < 2 ^ (52 + 1074)).
  { split; [apply Z.div_pos; lia|].
    apply Z.div_lt_upper_bound; [lia|]. rewrite pow2_scale by lia.
    unfold p. nia. }
  pose proof (shift_lt (p / Zpos d) (52 + 1074) ltac:(lia) ltac:(lia)
                ltac:(lia)) as Hsh.
  set (shift := Z.max (Z.log2 (p / Zpos d) - 52) 0) in *.
  assert (H2 : 0 < 2 ^ shift <= 2 ^ 1073).
  { split; [apply Z.pow_pos_nonneg; lia|apply Z.pow_le_mono_r; lia]. }
  assert (Hsc : scale = 2 * 2 ^ 1073).
  { unfold scale. change 1074 with (Z.succ 1073). apply Z.pow_succ_r. lia. }
  pose proof (half_even_error p (Zpos d * 2 ^ shift) ltac:(nia)) as He.
  set (r := half_even p (Zpos d * 2 ^ shift)) in *.
  unfold Qabs, Qle, Qminus, Qplus, Qopp. cbn [Qnum Qden].
  rewrite Pos2Z.inj_mul, scale_to_pos, Z.mul_1_l.
  assert (Hnum : Z.abs (Z.sgn n * (r * 2 ^ shift) * Zpos d + - n * scale)
                 = Z.abs (r * (Zpos d * 2 ^ shift) - p)).
  { destruct n as [|n|n]; cbn [Z.sgn Z.abs Z.opp] in *.
    - assert (r = 0) as -> by (unfold p in He; nia). reflexivity.
    - unfold p. f_equal. lia.
    - unfold p. change (Z.neg n) with (- Zpos n). lia. }
  rewrite Hnum. nia.
Qed.

(** Whole numbers below [2^53] in magnitude are floats. *)
Lemma round_int z :
  Z.abs z < 2 ^ 53 ->
  exists v, round (inject_Z z) = Some v /\ (v == inject_Z z)%Q.
Proof.
  intros Hz. pose proof scale_pos as Hs.
  destruct (round_magnitude_le (Z.abs z) 1 (53 + 1074)) as [Hm0 Hm];
    [lia|lia|rewrite pow2_scale by lia; nia|].
  unfold round, inject_Z. cbn [Qnum Qden].
  assert (Hlt : 2 ^ (53 + 1074) < 2 ^ 2098) by (apply Z.pow_lt_mono_r; lia).
  destruct (Z.ltb_spec (round_magnitude (Z.abs z) 1) (2 ^ 2098)) as [_|Hge];
    [|lia].
  eexists. split; [reflexivity|].
  unfold round_magnitude.
  set (p := Z.abs z * scale).
  assert (HN : 0 <= p / 1 < 2 ^ (53 + 1074)).
  { rewrite Z.div_1_r, pow2_scale by lia. unfold p. nia. }
  pose proof (shift_lt (p / 1) (53 + 1074) ltac:(lia) ltac:(lia) ltac:(lia))
    as Hsh.
  set (shift := Z.max (Z.log2 (p / 1) - 52) 0) in *.
  assert (Hsplit : scale = 2 ^ (1074 - shift) * 2 ^ shift).
  { unfold scale. rewrite <- Z.pow_add_r by lia. f_equal. lia. }
  assert (H2 : 0 < 2 ^ shift) by (apply Z.pow_pos_nonneg; lia).
  replace p with (Z.abs z * 2 ^ (1074 - shift) * (1 * 2 ^ shift))
    by (unfold p; rewrite Hsplit; ring).
  rewrite half_even_exact by lia.
  unfold Qeq. cbn [Qnum Qden]. rewrite scale_to_pos, Hsplit.
  destruct z as [|z|z]; cbn [Z.sgn Z.abs]; [reflexivity|lia|].
  change (Z.neg z) with (- Zpos z). lia.
Qed.

Lemma inject_pow_succ j :
  0 <= j -> (inject_Z (2 ^ (j + 1)) == 2 * inject_Z (2 ^ j))%Q.
Proof.
  intros Hj. unfold Qeq, inject_Z, Qmult. cbn [Qnum Qden].
  rewrite Z.pow_add_r by lia. change (2 ^ 1) with 2. lia.
Qed.

Lemma inject_pow_ge_1 j : 0 <= j -> (1 <= inject_Z (2 ^ j))%Q.
Proof.
  intros Hj. unfold Qle, inject_Z. cbn [Qnum Qden].
  pose proof (Z.pow_pos_nonneg 2 j ltac:(lia) Hj). lia.
Qed.


End Float64Props.

(** ** Rate limiter *)

Section RateLimiterProps.

Import Config RateLimiter.

Variable settings : Settings.

Local Open Scope Q_scope.

Lemma float_gt_true x y : float_gt x y = true <-> y < x.
Proof.
  unfold float_gt, float_lt. rewrite negb_true_iff.
  split.
  - intros H. apply Qnot_le_lt. intros Hle.
    apply Qle_bool_iff in Hle. congruence.
  - intros H. destruct (Qle_bool x y) eqn:E; [|reflexivity].
    apply Qle_bool_iff in E. exfalso. now apply (Qlt_not_le y x).
Qed.

Lemma float_gt_false x y : float_gt x y = false <-> x <= y.
Proof.
  unfold float_gt, float_lt. rewrite negb_false_iff. apply Qle_bool_iff.
Qed.




(** Pruning for a later window after pruning for an earlier one is pruning
    for the later one. *)
Lemma in_window_twice ws1 ws2 l :
  ws1 <= ws2 -> in_window ws2 (in_window ws1 l) = in_window ws2 l.
Proof.
  intros Hle. unfold in_window. induction l as [|t l IH]; [reflexivity|].
  cbn [List.filter].
  destruct (float_gt t ws1) eqn:E1; cbn [List.filter]; [now rewrite IH|].
  rewrite IH. destruct (float_gt t ws2) eqn:E2; [|reflexivity].
  apply float_gt_true in E2. apply float_gt_false in E1.
  exfalso. apply (Qlt_not_le ws2 t E2). now apply Qle_trans with ws1.
Qed.

Lemma in_window_length ws l : (length (in_window ws l) <= length l)%nat.
Proof.
  unfold in_window. induction l as [|t l IH]; cbn [List.filter length]; [lia|].
  destruct (float_gt t ws); cbn [length]; lia.
Qed.


(** [min] gives the first least element of a non-empty list. *)
Lemma fold_min_spec (l : list Q) (x : Q) :
  let m := fold_left (fun m y => if float_lt y m then y else m) l x in
  (m = x \/ In m l) /\ m <= x /\ Forall (fun t => m <= t) l.
Proof.
  revert x. induction l as [|y l IH]; intros x; cbn [fold_left].
  - split; [now left|]. split; [apply Qle_refl|constructor].
  - destruct (float_lt y x) eqn:E.
    + apply (float_gt_true x y) in E.
      destruct (IH y) as (Hin & Hle & Hall).
      split; [right; destruct Hin as [->|Hin]; [now left|now right]|].
      split; [apply Qle_trans with y; [exact Hle|now apply Qlt_le_weak]|].
      constructor; assumption.
    + apply (float_gt_false x y) in E.
      destruct (IH x) as (Hin & Hle & Hall).
      split; [destruct Hin as [->|Hin]; [now left|right; now right]|].
      split; [exact Hle|].
      constructor; [now apply Qle_trans with x|assumption].
Qed.

Lemma min_spec (l : list Q) :
  l <> [] ->
  exists oldest,
    min l = Some oldest /\ In oldest l /\ Forall (fun t => oldest <= t) l.
Proof.
  destruct l as [|x l]; [congruence|]. intros _.
  destruct (fold_min_spec l x) as (Hin & Hle & Hall).
  eexists. split; [reflexivity|].
  split; [destruct Hin as [->|Hin]; [now left|now right]|].
  constructor; assumption.
Qed.

(** The call, once the limiter is enabled, in terms of the timestamps kept
    for the key. *)
Lemma check_rate_limit_enabled self now ip endpoint :
  RATE_LIMIT_ENABLED settings = true ->
  check_rate_limit settings self now ip endpoint
  = let key := key_of ip endpoint in
    let kept :=
      in_window (now - inject_Z (window_seconds self))
                (default [] (requests self !! key)) in
    if (get_limit settings endpoint <=? Z.of_nat (length kept))%Z
    then
      (refusal kept (window_seconds self) now,
       Build (<[key := kept]> (requests self)) (window_seconds self))
    else
      (Returns (true, 0%Z),
       Build (<[key := kept ++ [now]]> (requests self)) (window_seconds self)).
Proof.
  intros En. unfold check_rate_limit. rewrite En. cbn [negb]. cbv zeta.
  destruct (requests self !! key_of ip endpoint) as [l|] eqn:Hk.
  - rewrite Hk, insert_insert_eq. cbn [window_seconds].
    destruct (_ <=? _)%Z; [|reflexivity]. unfold refusal.
    destruct (min _); [|reflexivity]. now destruct (retry_delay _ _ _).
  - rewrite lookup_insert_eq, !insert_insert_eq. cbn [window_seconds].
    destruct (_ <=? _)%Z; [|reflexivity]. unfold refusal.
    destruct (min _); [|reflexivity]. now destruct (retry_delay _ _ _).
Qed.

(** A refusal is not an admission. *)
Lemma refusal_not_admitted kept w now retry_after :
  refusal kept w now <> Returns (true, retry_after).
Proof.
  unfold refusal. destruct (min kept); [|discriminate].
  destruct (retry_delay _ _ _); discriminate.
Qed.

(** A call touches the entry of its own key only. *)
Lemma check_rate_limit_frame self now ip endpoint k :
  k <> key_of ip endpoint ->
  requests (snd (check_rate_limit settings self now ip endpoint)) !! k
  = requests self !! k.
Proof.
  intros Hne. destruct (RATE_LIMIT_ENABLED settings) eqn:En.
  - rewrite (check_rate_limit_enabled _ _ _ _ En). cbv zeta.
    destruct (_ <=? _)%Z; cbn [snd requests]; now rewrite lookup_insert_ne.
  - unfold check_rate_limit. now rewrite En.
Qed.

Lemma check_rate_limit_window self now ip endpoint :
  window_seconds (snd (check_rate_limit settings self now ip endpoint))
  = window_seconds self.
Proof.
  destruct (RATE_LIMIT_ENABLED settings) eqn:En.
  - rewrite (check_rate_limit_enabled _ _ _ _ En). cbv zeta.
    now destruct (_ <=? _)%Z.
  - unfold check_rate_limit. now rewrite En.
Qed.

(** The outcome of a call depends on the instance through the entry of its
    key and the window length only. *)
Lemma check_rate_limit_local self1 self2 now ip endpoint :
  requests self1 !! key_of ip endpoint = requests self2 !! key_of ip endpoint ->
  window_seconds self1 = window_seconds self2 ->
  fst (check_rate_limit settings self1 now ip endpoint)
  = fst (check_rate_limit settings self2 now ip endpoint).
Proof.
  intros Hk Hw. destruct (RATE_LIMIT_ENABLED settings) eqn:En.
  - rewrite !(check_rate_limit_enabled _ _ _ _ En). cbv zeta.
    rewrite Hk, Hw. now destruct (_ <=? _)%Z.
  - unfold check_rate_limit. now rewrite En.
Qed.






Lemma prefix_slash endpoint :
  String.prefix "/" endpoint = true -> exists rest, endpoint = String "/" rest.
Proof.
  destruct endpoint as [|c rest]; cbn [String.prefix]; [discriminate|].
  destruct (Ascii.ascii_dec "/" c) as [<-|]; [eauto|discriminate].
Qed.

(** Addresses hold no "/" and paths start with one: on such pairs the key
    decides the pair. *)
Lemma key_of_injective ip1 endpoint1 ip2 endpoint2 :
  Text.occurs "/" ip1 = false ->
  Text.occurs "/" ip2 = false ->
  String.prefix "/" endpoint1 = true ->
  String.prefix "/" endpoint2 = true ->
  key_of ip1 endpoint1 = key_of ip2 endpoint2 ->
  ip1 = ip2 /\ endpoint1 = endpoint2.
Proof.
  intros H1 H2 [r1 ->]%prefix_slash [r2 ->]%prefix_slash. unfold key_of.
  revert ip2 H1 H2.
  induction ip1 as [|c1 ip1 IH]; intros [|c2 ip2] H1 H2 Hk.
  - injection Hk as ->. split; reflexivity.
  - exfalso. injection Hk as <- Hk. destruct ip2 as [|d ip2].
    + discriminate Hk.
    + injection Hk as <- _. discriminate H2.
  - exfalso. injection Hk as -> Hk. destruct ip1 as [|d ip1].
    + discriminate Hk.
    + injection Hk as -> _. discriminate H1.
  - injection Hk as -> Hk.
    cbn [Text.occurs] in H1, H2.
    apply orb_false_elim in H1 as [_ H1], H2 as [_ H2].
    destruct (IH ip2 H1 H2 Hk) as [-> Hr]. split; [reflexivity|exact Hr].
Qed.

(** A call leaves the window of every other key, and the outcome of a
    later call on it, as they were. *)
Lemma check_rate_limit_other_key self now ip1 endpoint1 ip2 endpoint2 :
  key_of ip1 endpoint1 <> key_of ip2 endpoint2 ->
  let self' := snd (check_rate_limit settings self now ip1 endpoint1) in
  requests self' !! key_of ip2 endpoint2
  = requests self !! key_of ip2 endpoint2 /\
  forall later,
    fst (check_rate_limit settings self' later ip2 endpoint2)
    = fst (check_rate_limit settings self later ip2 endpoint2).
Proof.
  intros Hne self'.
  assert (Hk : requests self' !! key_of ip2 endpoint2
               = requests self !! key_of ip2 endpoint2)
    by (apply check_rate_limit_frame; congruence).
  split; [exact Hk|].
  intros later. apply check_rate_limit_local; [exact Hk|].
  apply check_rate_limit_window.
Qed.

(** C7. Key isolation, for clients that are addresses (no "/" in them) and
    endpoints that are paths (starting with "/"): for two distinct (client,
    endpoint) pairs, a call on one leaves the stored window of the other
    unchanged, and with it the outcome of the other's next call, whatever
    its reading; so using up one key's limit never gets a different key
    denied. *)
Theorem key_isolation self now ip1 endpoint1 ip2 endpoint2 :
  Text.occurs "/" ip1 = false ->
  Text.occurs "/" ip2 = false ->
  String.prefix "/" endpoint1 = true ->
  String.prefix "/" endpoint2 = true ->
  (ip1, endpoint1) <> (ip2, endpoint2) ->
  let self' := snd (check_rate_limit settings self now ip1 endpoint1) in
  requests self' !! key_of ip2 endpoint2
  = requests self !! key_of ip2 endpoint2 /\
  forall later,
    fst (check_rate_limit settings self' later ip2 endpoint2)
    = fst (check_rate_limit settings self later ip2 endpoint2).
Proof.
  intros Hip1 Hip2 Hep1 Hep2 Hne.
  apply check_rate_limit_other_key. intros Hk.
  destruct (key_of_injective _ _ _ _ Hip1 Hip2 Hep1 Hep2 Hk) as [-> ->].
  now apply Hne.
Qed.

(** C8, amended. For an endpoint whose configured limit is not negative,
    the remaining count is [max(0, limit - count)] for the count of
    timestamps of the key still in the window, so it lies between 0 and the
    limit. The call prunes the entry of the key and records nothing: no
    stored window grows, and the reading [now] is not added. *)
Theorem get_remaining_spec self now ip endpoint :
  (0 <= get_limit settings endpoint)%Z ->
  let limit := get_limit settings endpoint in
  let key := key_of ip endpoint in
  let window_start := now - inject_Z (window_seconds self) in
  let count :=
    length (in_window window_start (default [] (requests self !! key))) in
  let remaining := fst (get_remaining settings self now ip endpoint) in
  let self' := snd (get_remaining settings self now ip endpoint) in
  remaining = Z.max 0 (limit - Z.of_nat count) /\
  (0 <= remaining <= limit)%Z /\
  requests self' = alter (in_window window_start) key (requests self) /\
  window_seconds self' = window_seconds self /\
  forall k,
    (length (default [] (requests self' !! k))
     <= length (default [] (requests self !! k)))%nat.
Proof.
  intros Hlim limit key window_start count remaining self'.
  assert (Hreq : requests self'
                 = alter (in_window window_start) key (requests self)).
  { subst self'. unfold get_remaining. fold key.
    destruct (requests self !! key) as [l|] eqn:Hk; cbn [snd requests].
    - apply map_eq. intros k. destruct (decide (k = key)) as [->|Hne].
      + now rewrite lookup_insert_eq, lookup_alter_eq, Hk.
      + now rewrite lookup_insert_ne, lookup_alter_ne by congruence.
    - apply map_eq. intros k. destruct (decide (k = key)) as [->|Hne].
      + now rewrite lookup_alter_eq, Hk.
      + now rewrite lookup_alter_ne by congruence. }
  assert (Hrem : remaining = Z.max 0 (limit - Z.of_nat count)).
  { subst remaining count. unfold get_remaining. fold key limit.
    destruct (requests self !! key) as [l|]; cbn [fst default from_option id].
    - fold window_start. lia.
    - cbn [in_window List.filter length]. lia. }
  split; [exact Hrem|]. split; [lia|]. split; [exact Hreq|].
  split.
  { subst self'. unfold get_remaining.
    now destruct (requests self !! key_of ip endpoint). }
  intros k. rewrite Hreq. destruct (decide (k = key)) as [->|Hne].
  - rewrite lookup_alter_eq.
    destruct (requests self !! key) as [l|]; cbn; [|lia].
    apply in_window_length.
  - now rewrite lookup_alter_ne by congruence.
Qed.

End RateLimiterProps.

Section RateLimiterExamples.

Import Config RateLimiter.

Local Open Scope Q_scope.


(** The two operations round: with 0.1 and 899.1 as floats, five calls at
    0.1 and a sixth at 899.1 give the delay 1, and three calls at 0.1 and a
    fourth at 1.1 on the e-mail endpoint give 899. *)
Example retry_after_rounds :
  let t01 := 3602879701896397 # 36028797018963968 in
  let t8991 := 7908567236267213 # 8796093022208 in
  let t11 := 2476979795053773 # 2251799813685248 in
  let ip := "203.0.113.7" in
  let self5 :=
    snd (calls default_settings init [t01; t01; t01; t01; t01] ip
           "/api/assessment/submit") in
  let self3 :=
    snd (calls default_settings init [t01; t01; t01] ip
           "/api/email/send-results") in
  option_map Qred (Float64.round (1 # 10)) = Some t01 /\
  option_map Qred (Float64.round (8991 # 10)) = Some t8991 /\
  option_map Qred (Float64.round (11 # 10)) = Some t11 /\
  fst (check_rate_limit default_settings self5 t8991 ip
         "/api/assessment/submit") = Returns (false, 1%Z) /\
  fst (check_rate_limit default_settings self3 t11 ip
         "/api/email/send-results") = Returns (false, 899%Z).
Proof. vm_compute. repeat split; reflexivity. Qed.


(** C7 on two clients of one endpoint. *)
Lemma key_isolation_witness :
  let endpoint := "/api/email/send-results" in
  let self' :=
    snd (check_rate_limit default_settings init 0 "10.0.0.1" endpoint) in
  requests self' !! key_of "10.0.0.2" endpoint = None /\
  fst (check_rate_limit default_settings self' 1 "10.0.0.2" endpoint)
  = Returns (true, 0%Z).
Proof.
  intros endpoint self'.
  destruct (key_isolation default_settings init 0
              "10.0.0.1" endpoint "10.0.0.2" endpoint) as [Hk Hcall].
  - reflexivity.
  - reflexivity.
  - reflexivity.
  - reflexivity.
  - discriminate.
  - split.
    + exact Hk.
    + exact (Hcall 1).
Defined.

(** C8, as stated, fails: with the limit of the health endpoint configured
    as -1 and a key the limiter has not seen, the remaining count is -1,
    which is negative and is not [max(0, limit - count)]. *)
Lemma get_remaining_negative_limit :
  let settings := {|
    RATE_LIMIT_ENABLED := true;
    RATE_LIMIT_SUBMIT_ASSESSMENT := 5;
    RATE_LIMIT_SAVE_PROGRESS := 30;
    RATE_LIMIT_SEND_EMAIL := 3;
    RATE_LIMIT_HEALTH := -1
  |} in
  let ip := "10.0.0.1" in
  let endpoint := "/health" in
  let count :=
    length (in_window (0 - inject_Z (window_seconds init))
                      (default [] (requests init !! key_of ip endpoint))) in
  get_limit settings endpoint = (-1)%Z /\
  fst (get_remaining settings init 0 ip endpoint) = (-1)%Z /\
  (fst (get_remaining settings init 0 ip endpoint) < 0)%Z /\
  fst (get_remaining settings init 0 ip endpoint)
  <> Z.max 0 (get_limit settings endpoint - Z.of_nat count).
Proof. vm_compute. repeat split; congruence. Qed.

(** The amended C8 after two recorded calls, read at 10 and at 901. *)
Lemma get_remaining_spec_witness :
  let ip := "10.0.0.1" in
  let endpoint := "/api/email/send-results" in
  let self2 := snd (calls default_settings init [0; 5] ip endpoint) in
  fst (get_remaining default_settings self2 10 ip endpoint) = 1%Z /\
  fst (get_remaining default_settings self2 901 ip endpoint) = 2%Z.
Proof.
  intros ip endpoint self2.
  destruct (get_remaining_spec default_settings self2 10 ip endpoint)
    as [H10 _]; [vm_compute; discriminate|].
  destruct (get_remaining_spec default_settings self2 901 ip endpoint)
    as [H901 _]; [vm_compute; discriminate|].
  split; [rewrite H10|rewrite H901]; vm_compute; reflexivity.
Defined.

End RateLimiterExamples.


(** * Further properties of the modelled code *)

(** ** Qualification: the decision table and the reasons *)

Section QualificationTable.

Import Qualification.

Lemma eq_lit_spec o s : reflect (o = Some s) (Py.eq_lit o s).
Proof.
  destruct o as [x|]; cbn.
  - destruct (String.eqb_spec x s); constructor; congruence.
  - constructor. discriminate.
Qed.

Lemma is_False_spec hb : reflect (hb = Some false) (Py.is_False hb).
Proof. destruct hb as [[]|]; constructor; congruence. Qed.

Ltac table :=
  cbn [orb]; repeat split; intros; try discriminate; try tauto;
  intuition congruence.

(** The verdict as a table of the three answers. An absent budget flag
    counts as "has budget": with it, a high range or a high urgency gives
    Qualified. *)
Theorem classify_decision_table has_budget budget_range urgency :
  let status :=
    determine_qualification_status has_budget budget_range urgency in
  let high :=
    budget_range = Some "15k-30k" \/ budget_range = Some "over-30k" \/
    urgency = Some "immediate" \/ urgency = Some "within-month" in
  let barred := has_budget = Some false \/ budget_range = Some "under-5k" in
  (status = DISQUALIFIED <-> barred) /\
  (status = QUALIFIED <-> ~ barred /\ high) /\
  (status = PENDING <-> ~ barred /\ ~ high).
Proof.
  cbv zeta. unfold determine_qualification_status, Py.in_lits.
  cbn [existsb].
  destruct (is_False_spec has_budget); [table|].
  destruct (eq_lit_spec budget_range "under-5k"); [table|].
  destruct (eq_lit_spec budget_range "15k-30k"); [table|].
  destruct (eq_lit_spec budget_range "over-30k"); [table|].
  destruct (eq_lit_spec urgency "immediate"); [table|].
  destruct (eq_lit_spec urgency "within-month"); [table|].
  cbn [orb].
  destruct (Py.eq_lit budget_range "5k-15k" || Py.eq_lit urgency "few-months");
    table.
Qed.

(** Which reason is given: the missing budget wins over the low range, and
    the urgency plays no part. *)
Theorem reason_texts has_budget budget_range urgency :
  let reason :=
    get_disqualification_reason has_budget budget_range urgency in
  (reason = Some "No budget allocated for treatment"
   <-> has_budget = Some false) /\
  (reason = Some "Budget below minimum treatment cost"
   <-> has_budget <> Some false /\ budget_range = Some "under-5k") /\
  (forall urgency',
      get_disqualification_reason has_budget budget_range urgency' = reason).
Proof.
  cbv zeta. unfold get_disqualification_reason.
  destruct (is_False_spec has_budget);
  destruct (eq_lit_spec budget_range "under-5k");
  repeat split; intros; try discriminate; try tauto; intuition congruence.
Qed.

End QualificationTable.

(** ** Sanitizer: what the cleaned text can contain *)

Section SanitizerSafety.

Import Text Sanitizer.

Lemma append_empty_l s : EmptyString +:+ s = s.
Proof. reflexivity. Qed.

Lemma append_cons c s1 s2 : String c s1 +:+ s2 = String c (s1 +:+ s2).
Proof. reflexivity. Qed.

Lemma append_length s1 s2 :
  String.length (s1 +:+ s2) = (String.length s1 + String.length s2)%nat.
Proof.
  induction s1 as [|c s1 IH]; [reflexivity|].
  rewrite append_cons. cbn [String.length]. now rewrite IH.
Qed.

(** Replacing matches by the empty text only drops characters. *)
Lemma sub_from_empty_keeps (p : ascii -> bool) re s :
  all_chars p s = true ->
  forall skip, all_chars p (Re.sub_from re EmptyString skip s) = true.
Proof.
  induction s as [|c s IH]; intros Hs skip.
  - destruct skip; cbn [Re.sub_from]; [|reflexivity].
    destruct (Re.match_len re false EmptyString) as [[|n]|];
      rewrite ?append_empty_l; try reflexivity.
    destruct (Re.match_len re true EmptyString) as [[|n]|]; reflexivity.
  - cbn [all_chars] in Hs. apply andb_true_iff in Hs as [Hc Hs].
    destruct skip as [|skip]; cbn [Re.sub_from]; [|now apply IH].
    assert (Hcopy : all_chars p (String c (Re.sub_from re EmptyString 0 s))
                    = true).
    { cbn [all_chars]. now rewrite Hc, IH. }
    destruct (Re.match_len re false (String c s)) as [[|n]|];
      rewrite ?append_empty_l; [|now apply IH|exact Hcopy].
    destruct (Re.match_len re true (String c s)) as [[|n]|];
      rewrite ?append_empty_l; [exact Hcopy|now apply IH|exact Hcopy].
Qed.

Lemma sub_from_empty_length re s :
  forall skip,
    (String.length (Re.sub_from re EmptyString skip s) <= String.length s)%nat.
Proof.
  induction s as [|c s IH]; intros skip.
  - destruct skip; cbn [Re.sub_from]; [|cbn; lia].
    destruct (Re.match_len re false EmptyString) as [[|n]|];
      rewrite ?append_empty_l; cbn [String.length]; try lia.
    destruct (Re.match_len re true EmptyString) as [[|n]|];
      cbn [String.length]; lia.
  - destruct skip as [|skip]; cbn [Re.sub_from String.length];
      [|specialize (IH skip); lia].
    pose proof (IH 0%nat) as H0.
    destruct (Re.match_len re false (String c s)) as [[|n]|];
      rewrite ?append_empty_l; cbn [String.length];
      [|specialize (IH n); lia|lia].
    destruct (Re.match_len re true (String c s)) as [[|n]|];
      rewrite ?append_empty_l; cbn [String.length];
      [lia|specialize (IH n); lia|lia].
Qed.

Lemma lstrip_keeps (p : ascii -> bool) s :
  all_chars p s = true -> all_chars p (lstrip s) = true.
Proof.
  induction s as [|c s IH]; [reflexivity|].
  intros Hs. cbn [lstrip]. destruct (is_space c); [|exact Hs].
  cbn [all_chars] in Hs. apply andb_true_iff in Hs as [_ Hs]. now apply IH.
Qed.

Lemma rstrip_keeps (p : ascii -> bool) s :
  all_chars p s = true -> all_chars p (rstrip s) = true.
Proof.
  induction s as [|c s IH]; [reflexivity|].
  cbn [all_chars]. intros [Hc Hs]%andb_true_iff. cbn [rstrip].
  specialize (IH Hs). destruct (rstrip s) as [|d r].
  - destruct (is_space c); cbn [all_chars]; [reflexivity|now rewrite Hc].
  - cbn [all_chars] in *. now rewrite Hc, IH.
Qed.

Lemma lstrip_length s : (String.length (lstrip s) <= String.length s)%nat.
Proof.
  induction s as [|c s IH]; cbn [lstrip String.length]; [lia|].
  destruct (is_space c); cbn [String.length]; lia.
Qed.

Lemma rstrip_length s : (String.length (rstrip s) <= String.length s)%nat.
Proof.
  induction s as [|c s IH]; cbn [rstrip String.length]; [lia|].
  destruct (rstrip s) as [|d r]; [destruct (is_space c)|];
    cbn [String.length] in *; lia.
Qed.

Lemma strip_length s : (String.length (strip s) <= String.length s)%nat.
Proof.
  unfold strip. pose proof (rstrip_length (lstrip s)).
  pose proof (lstrip_length s). lia.
Qed.

(** A stripped text does not start and does not end with whitespace. *)
Lemma lstrip_head s c r : lstrip s = String c r -> is_space c = false.
Proof.
  induction s as [|x s IH]; cbn [lstrip]; [discriminate|].
  destruct (is_space x) eqn:E; [exact IH|].
  intros H. injection H as <- _. exact E.
Qed.

Lemma rstrip_head s c r :
  rstrip s = String c r ->
  exists s', s = String c s' /\ (r = EmptyString -> is_space c = false).
Proof.
  destruct s as [|x s]; cbn [rstrip]; [discriminate|].
  destruct (rstrip s) as [|d r'].
  - destruct (is_space x) eqn:E; [discriminate|].
    intros H. injection H as <- <-. eauto.
  - intros H. injection H as <- <-. exists s. split; [reflexivity|discriminate].
Qed.

Lemma rstrip_last s r c :
  rstrip s = r +:+ String c EmptyString -> is_space c = false.
Proof.
  revert r. induction s as [|x s IH]; intros r; cbn [rstrip].
  - destruct r; discriminate.
  - destruct (rstrip s) as [|d r'] eqn:E.
    + destruct (is_space x) eqn:Ex; [destruct r; discriminate|].
      destruct r as [|y [|z r]]; try discriminate.
      intros H. injection H as <-. exact Ex.
    + destruct r as [|y r]; [discriminate|].
      rewrite append_cons. intros H. injection H as _ H.
      now apply (IH r).
Qed.

Lemma strip_ends s :
  (forall c r, strip s = String c r -> is_space c = false) /\
  (forall r c, strip s = r +:+ String c EmptyString -> is_space c = false).
Proof.
  unfold strip. split.
  - intros c r H. destruct (rstrip_head _ _ _ H) as (s' & Hs & _).
    now apply lstrip_head in Hs.
  - intros r c. apply rstrip_last.
Qed.

Lemma append_assoc s1 s2 s3 : (s1 +:+ s2) +:+ s3 = s1 +:+ (s2 +:+ s3).
Proof.
  induction s1 as [|c s1 IH]; [reflexivity|].
  rewrite !append_cons. now rewrite IH.
Qed.

Lemma all_chars_append p s1 s2 :
  all_chars p (s1 +:+ s2) = all_chars p s1 && all_chars p s2.
Proof.
  induction s1 as [|c s1 IH]; [reflexivity|].
  rewrite append_cons. cbn [all_chars]. now rewrite IH, andb_assoc.
Qed.

Lemma occurs_all_chars c s :
  occurs c s = negb (all_chars (fun x => negb (Ascii.eqb x c)) s).
Proof.
  induction s as [|x s IH]; [reflexivity|].
  cbn [occurs all_chars]. rewrite IH.
  now destruct (Ascii.eqb x c), (all_chars _ s).
Qed.

Lemma replace_char_app c r s1 s2 :
  replace_char c r (s1 +:+ s2) = replace_char c r s1 +:+ replace_char c r s2.
Proof.
  induction s1 as [|x s1 IH]; [reflexivity|].
  rewrite append_cons. cbn [replace_char]. rewrite IH.
  destruct (Ascii.eqb x c); [now rewrite append_assoc|reflexivity].
Qed.

(** Escaping works character by character. *)
Lemma escape_cons c s :
  Html.escape (String c s) = Html.escape (String c EmptyString) +:+ Html.escape s.
Proof.
  change (String c s) with (String c EmptyString +:+ s).
  unfold Html.escape. now rewrite !replace_char_app.
Qed.

(** The three markup characters and the two quotes. *)
Lemma escape_one c :
  (String.length (Html.escape (String c EmptyString)) <= 6)%nat /\
  all_chars (fun x => negb (one_of "<>'" x || Ascii.eqb x dquote))
            (Html.escape (String c EmptyString)) = true.
Proof.
  destruct c as [[] [] [] [] [] [] [] []];
    (split; [vm_compute; lia|vm_compute; reflexivity]).
Qed.

Lemma escape_length s :
  (String.length (Html.escape s) <= 6 * String.length s)%nat.
Proof.
  induction s as [|c s IH]; [cbn; lia|].
  rewrite escape_cons, append_length. cbn [String.length].
  destruct (escape_one c) as [Hc _]. lia.
Qed.

Lemma escape_safe s :
  all_chars (fun x => negb (one_of "<>'" x || Ascii.eqb x dquote))
            (Html.escape s) = true.
Proof.
  induction s as [|c s IH]; [reflexivity|].
  rewrite escape_cons, all_chars_append, IH.
  destruct (escape_one c) as [_ Hc]. now rewrite Hc.
Qed.

Lemma all_chars_impl (p q : ascii -> bool) s :
  (forall c, p c = true -> q c = true) ->
  all_chars p s = true -> all_chars q s = true.
Proof.
  intros Hpq. induction s as [|c s IH]; [reflexivity|].
  cbn [all_chars]. intros [Hc Hs]%andb_true_iff.
  now rewrite (Hpq c Hc), IH.
Qed.

Lemma slice_to_length text n :
  (String.length (slice_to text n) <= String.length text)%nat /\
  ((0 <= n)%Z -> (Z.of_nat (String.length (slice_to text n)) <= n)%Z).
Proof.
  assert (Hsub : forall k s,
             (String.length (String.substring 0 k s) <= String.length s)%nat).
  { induction k as [|k IH]; intros [|c s]; cbn; try lia.
    specialize (IH s). lia. }
  unfold slice_to. destruct (Z.ltb_spec n 0) as [Hn|Hn].
  - split; [apply Hsub|lia].
  - split; [apply Hsub|]. intros _.
    pose proof (substring_length_le (Z.to_nat n) text). lia.
Qed.

Lemma sanitize_text_lacks text max_length c :
  In c ["<"; ">"; "'"; dquote]%char ->
  occurs c (sanitize_text text max_length) = false.
Proof.
  intros Hc. rewrite occurs_all_chars. apply negb_false_iff.
  apply all_chars_impl
    with (p := fun x => negb (one_of "<>'" x || Ascii.eqb x dquote)).
  { intros x Hx. cbn in Hc.
    destruct Hc as [<-|[<-|[<-|[<-|[]]]]];
      destruct (Ascii.eqb_spec x "<"), (Ascii.eqb_spec x ">"),
        (Ascii.eqb_spec x "'"), (Ascii.eqb_spec x dquote);
      subst; try reflexivity; try discriminate Hx;
      cbn in *; congruence. }
  unfold sanitize_text. destruct (String.eqb text EmptyString); [reflexivity|].
  unfold strip. apply rstrip_keeps, lstrip_keeps.
  unfold Re.sub. do 2 apply sub_from_empty_keeps. apply escape_safe.
Qed.

(** Whatever the input and the maximum length, the cleaned text holds none
    of the characters "<", ">", the single quote and the double quote. *)
Theorem sanitize_text_no_markup text max_length :
  occurs "<" (sanitize_text text max_length) = false /\
  occurs ">" (sanitize_text text max_length) = false /\
  occurs "'" (sanitize_text text max_length) = false /\
  occurs dquote (sanitize_text text max_length) = false.
Proof.
  repeat split; apply sanitize_text_lacks; cbn; tauto.
Qed.

(** The cleaned text is at most six times as long as the cut of the input:
    six times its maximum length, and six times the input. *)
Theorem sanitize_text_length text :
  (forall max_length : nat,
      (String.length (sanitize_text text (Z.of_nat max_length))
       <= 6 * max_length)%nat) /\
  (forall max_length,
      (String.length (sanitize_text text max_length)
       <= 6 * String.length text)%nat).
Proof.
  assert (H : forall n,
             (String.length (sanitize_text text n)
              <= 6 * String.length (slice_to text n))%nat).
  { intros n. unfold sanitize_text.
    destruct (String.eqb text EmptyString); [cbn; lia|].
    eapply Nat.le_trans; [apply strip_length|].
    unfold Re.sub.
    eapply Nat.le_trans; [apply sub_from_empty_length|].
    eapply Nat.le_trans; [apply sub_from_empty_length|].
    apply escape_length. }
  assert (Hnat : forall max_length : nat,
             (String.length (sanitize_text text (Z.of_nat max_length))
              <= 6 * max_length)%nat).
  { intros n. specialize (H (Z.of_nat n)).
    destruct (slice_to_length text (Z.of_nat n)) as [_ Hn]. lia. }
  split; [exact Hnat|].
  intros n. specialize (H n).
  destruct (slice_to_length text n) as [Hn _]. lia.
Qed.

(** The cleaned text neither starts nor ends with a whitespace character,
    so trimming it again changes nothing at its ends. *)
Theorem sanitize_text_trimmed text max_length :
  (forall c r,
      sanitize_text text max_length = String c r -> is_space c = false) /\
  (forall r c,
      sanitize_text text max_length = r +:+ String c EmptyString ->
      is_space c = false).
Proof.
  unfold sanitize_text. destruct (String.eqb text EmptyString).
  - split; [discriminate|]. intros [|x r] c; discriminate.
  - apply strip_ends.
Qed.

Lemma all_chars_filter_chars p s : all_chars p (filter_chars p s) = true.
Proof.
  induction s as [|c s IH]; [reflexivity|].
  cbn [filter_chars]. destruct (p c) eqn:E; [|exact IH].
  cbn [all_chars]. now rewrite E, IH.
Qed.

Lemma filter_chars_all p s : all_chars p s = true -> filter_chars p s = s.
Proof.
  induction s as [|c s IH]; [reflexivity|].
  cbn [all_chars filter_chars]. intros [Hc Hs]%andb_true_iff.
  now rewrite Hc, IH.
Qed.

Lemma lstrip_fixed s :
  (forall c r, s = String c r -> is_space c = false) -> lstrip s = s.
Proof.
  destruct s as [|c s]; [reflexivity|].
  intros H. cbn [lstrip]. now rewrite (H c s eq_refl).
Qed.

Lemma rstrip_fixed s :
  (forall r c, s = r +:+ String c EmptyString -> is_space c = false) ->
  rstrip s = s.
Proof.
  induction s as [|x s IH]; [reflexivity|].
  intros H. cbn [rstrip]. rewrite IH.
  - destruct s as [|y s]; [|reflexivity].
    now rewrite (H EmptyString x eq_refl).
  - intros r c ->. apply (H (String x r) c). reflexivity.
Qed.

Lemma strip_strip s : strip (strip s) = strip s.
Proof.
  destruct (strip_ends s) as [Hhead Hlast].
  unfold strip at 1. rewrite (lstrip_fixed _ Hhead).
  now apply rstrip_fixed.
Qed.

(** A result of the phone sanitizer is the trimmed form of a text of kept
    characters. *)
Lemma sanitize_phone_some phone cleaned :
  sanitize_phone phone = Some cleaned ->
  exists kept, cleaned = strip kept /\ all_chars phone_char kept = true.
Proof.
  destruct phone as [[|x phone]|]; cbn [sanitize_phone]; try discriminate.
  unfold phone_re. rewrite sub_drop_class.
  pose proof (all_chars_filter_chars phone_char (String x phone)) as Hall.
  set (kept := filter_chars phone_char (String x phone)) in *.
  destruct (String.eqb kept EmptyString); [discriminate|].
  intros H. injection H as <-. eauto.
Qed.

(** What the phone sanitizer returns is made of digits, whitespace, hyphens,
    parentheses and plus signs only, and neither starts nor ends with
    whitespace. *)
Theorem sanitize_phone_result phone cleaned :
  sanitize_phone phone = Some cleaned ->
  all_chars phone_char cleaned = true /\
  (forall c r, cleaned = String c r -> is_space c = false) /\
  (forall r c, cleaned = r +:+ String c EmptyString -> is_space c = false).
Proof.
  intros (kept & -> & Hall)%sanitize_phone_some. split.
  - unfold strip. now apply rstrip_keeps, lstrip_keeps.
  - apply strip_ends.
Qed.

(** Sanitizing a second time changes nothing, except that an empty result
    becomes absent. *)
Theorem sanitize_phone_again phone cleaned :
  sanitize_phone phone = Some cleaned ->
  sanitize_phone (Some cleaned)
  = if String.eqb cleaned EmptyString then None else Some cleaned.
Proof.
  intros (kept & -> & Hkept)%sanitize_phone_some.
  assert (Hall : all_chars phone_char (strip kept) = true)
    by (unfold strip; now apply rstrip_keeps, lstrip_keeps).
  destruct (strip_ends kept) as [Hhead Hlast].
  destruct (strip kept) as [|c r] eqn:Es; [reflexivity|].
  cbn [sanitize_phone String.eqb]. unfold phone_re.
  rewrite sub_drop_class, (filter_chars_all _ _ Hall).
  cbn [String.eqb].
  destruct (Ascii.eqb c c) eqn:Ec; [|now rewrite Ascii.eqb_refl in Ec].
  assert (Hne : String.eqb (String c r) EmptyString = false) by reflexivity.
  unfold strip. rewrite (lstrip_fixed _ Hhead), (rstrip_fixed _ Hlast).
  reflexivity.
Qed.

End SanitizerSafety.

(** The phone sanitizer on "+1 (555) 010-9999 ext 4". *)
Lemma sanitize_phone_result_witness :
  Text.all_chars Sanitizer.phone_char "+1 (555) 010-9999  4" = true.
Proof.
  destruct (sanitize_phone_result (Some "+1 (555) 010-9999 ext 4")
                                  "+1 (555) 010-9999  4") as [H _].
  - vm_compute. reflexivity.
  - exact H.
Defined.

Lemma sanitize_phone_again_witness :
  Sanitizer.sanitize_phone (Some "+1 (555) 010-9999  4")
  = Some "+1 (555) 010-9999  4".
Proof.
  rewrite (sanitize_phone_again (Some "+1 (555) 010-9999 ext 4")
                                "+1 (555) 010-9999  4").
  - reflexivity.
  - vm_compute. reflexivity.
Defined.

(** ** The validation patterns of models.py and the e-mail sanitizer *)

Section Validation.

Import Text Sanitizer Models.

Lemma append_empty_r s : s +:+ EmptyString = s.
Proof.
  induction s as [|c s IH]; [reflexivity|].
  rewrite append_cons. now rewrite IH.
Qed.

Lemma once_spec p (k : Re.cont) s :
  Re.once p k s <> None <->
  exists c rest, s = String c rest /\ p c = true /\ k rest <> None.
Proof.
  unfold Re.once. destruct s as [|c s].
  - split; [congruence|]. intros (c & rest & H & _). discriminate.
  - destruct (p c) eqn:E.
    + split; [eauto|]. intros (c' & rest & H & _ & Hk).
      injection H as -> ->. exact Hk.
    + split; [congruence|]. intros (c' & rest & H & Hp & _).
      injection H as -> ->. congruence.
Qed.

Lemma greedy_spec p (k : Re.cont) s :
  Re.greedy p k s <> None <->
  exists pre rest,
    s = pre +:+ rest /\ all_chars p pre = true /\ k rest <> None.
Proof.
  induction s as [|c s IH]; cbn [Re.greedy].
  - split.
    + intros H. exists EmptyString, EmptyString. auto.
    + intros ([|x pre] & rest & H & _ & Hk); [|discriminate].
      rewrite append_empty_l in H. now subst rest.
  - split.
    + intros H. destruct (p c) eqn:E.
      * destruct (Re.greedy p k s) eqn:G.
        -- destruct IH as [IH _].
           destruct IH as (pre & rest & -> & Hpre & Hk); [congruence|].
           exists (String c pre), rest. cbn [all_chars].
           rewrite E, Hpre. auto.
        -- exists EmptyString, (String c s). auto.
      * exists EmptyString, (String c s). auto.
    + intros ([|x pre] & rest & H & Hpre & Hk).
      * rewrite append_empty_l in H. subst rest.
        destruct (p c); [|exact Hk]. now destruct (Re.greedy p k s).
      * rewrite append_cons in H. injection H as <- ->.
        cbn [all_chars] in Hpre. apply andb_true_iff in Hpre as [Hc Hpre].
        rewrite Hc.
        destruct (Re.greedy p k (pre +:+ rest)) eqn:G; [congruence|].
        exfalso. destruct IH as [_ IH]. apply IH; [eauto|reflexivity].
Qed.

Lemma plus_spec p (k : Re.cont) s :
  Re.once p (Re.greedy p k) s <> None <->
  exists pre rest,
    s = pre +:+ rest /\ pre <> EmptyString /\ all_chars p pre = true /\
    k rest <> None.
Proof.
  rewrite once_spec. split.
  - intros (c & s' & -> & Hc & (pre & rest & -> & Hpre & Hk)%greedy_spec).
    exists (String c pre), rest. cbn [all_chars]. rewrite Hc, Hpre.
    repeat split; [discriminate|exact Hk].
  - intros ([|c pre] & rest & -> & Hne & Hpre & Hk); [congruence|].
    cbn [all_chars] in Hpre. apply andb_true_iff in Hpre as [Hc Hpre].
    exists c, (pre +:+ rest). repeat split; [exact Hc|].
    apply greedy_spec. eauto.
Qed.

Lemma at_end_spec rest :
  Re.at_end rest <> None <->
  rest = EmptyString \/ rest = String "010" EmptyString.
Proof.
  unfold Re.at_end. destruct rest as [|c [|d rest]].
  - split; [auto|congruence].
  - destruct (Ascii.eqb_spec c "010") as [->|Hne].
    + split; [auto|congruence].
    + split; [congruence|]. intros [H|H]; [discriminate|].
      injection H as ->. congruence.
  - split; [congruence|]. intros [H|H]; discriminate.
Qed.

Lemma match_to_end_true re s :
  Re.match_to_end re s = true <-> Re.run re Re.at_end s <> None.
Proof.
  unfold Re.match_to_end. destruct (Re.run re Re.at_end s);
    split; congruence.
Qed.

(** At least [n] characters of a class that holds the line feed, up to the
    end of the text. *)
Lemma at_least_spec (p : ascii -> bool) n s :
  p "010"%char = true ->
  Re.run (repeat (Re.Item p Re.Once) n ++ [Re.Item p Re.Star]) Re.at_end s
  <> None
  <-> (n <= String.length s)%nat /\ all_chars p s = true.
Proof.
  intros Hlf. revert s. induction n as [|n IH]; intros s.
  - cbn [repeat app Re.run Re.how Re.accepts]. rewrite greedy_spec. split.
    + intros (pre & rest & -> & Hpre & Hend%at_end_spec).
      split; [lia|]. rewrite all_chars_append, Hpre.
      destruct Hend as [->| ->]; [reflexivity|]. cbn [all_chars].
      now rewrite Hlf.
    + intros [_ Hall]. exists s, EmptyString.
      rewrite append_empty_r. repeat split; [exact Hall|discriminate].
  - cbn [repeat app Re.run Re.how Re.accepts]. rewrite once_spec. split.
    + intros (c & rest & -> & Hc & [Hlen Hall]%IH).
      cbn [String.length all_chars]. rewrite Hc, Hall. split; [lia|reflexivity].
    + intros [Hlen Hall]. destruct s as [|c s]; [cbn in Hlen; lia|].
      cbn [String.length all_chars] in *.
      apply andb_true_iff in Hall as [Hc Hall].
      exists c, s. repeat split; [exact Hc|]. apply IH. split; [lia|exact Hall].
Qed.

(** [validate_phone] accepts exactly the texts of ten or more characters
    that are all digits, whitespace, hyphens, parentheses or plus signs. *)
Theorem validate_phone_spec phone :
  validate_phone phone = true <->
  (10 <= String.length phone)%nat /\ all_chars phone_class phone = true.
Proof.
  unfold validate_phone, phone_re. rewrite match_to_end_true.
  apply at_least_spec. reflexivity.
Qed.

(** What the e-mail pattern matches, up to the end of the text. *)
Lemma email_re_accepts email :
  Re.run email_re Re.at_end email <> None <->
  exists local domain tld ending,
    email = local +:+ "@" +:+ domain +:+ "." +:+ tld +:+ ending /\
    (ending = EmptyString \/ ending = String "010" EmptyString) /\
    (local <> EmptyString /\ all_chars email_char local = true) /\
    (domain <> EmptyString /\ all_chars email_char domain = true) /\
    (tld <> EmptyString /\ all_chars email_char tld = true).
Proof.
  unfold email_re. cbn [Re.run Re.how Re.accepts Re.lit]. split.
  - intros (local & r1 & -> & Hl & Hal & H)%plus_spec.
    apply once_spec in H as (c1 & r2 & -> & ->%Ascii.eqb_eq & H).
    apply plus_spec in H as (domain & r3 & -> & Hd & Had & H).
    apply once_spec in H as (c2 & r4 & -> & ->%Ascii.eqb_eq & H).
    apply plus_spec in H as (tld & ending & -> & Ht & Hat & H%at_end_spec).
    exists local, domain, tld, ending. auto 10.
  - intros (local & domain & tld & ending & -> & Hend & [Hl Hal] & [Hd Had]
            & [Ht Hat]).
    apply plus_spec. exists local. eexists.
    split; [reflexivity|]. split; [exact Hl|]. split; [exact Hal|].
    apply once_spec. exists "@"%char. eexists.
    split; [reflexivity|]. split; [apply Ascii.eqb_refl|].
    apply plus_spec. exists domain. eexists.
    split; [reflexivity|]. split; [exact Hd|]. split; [exact Had|].
    apply once_spec. exists "."%char. eexists.
    split; [reflexivity|]. split; [apply Ascii.eqb_refl|].
    apply plus_spec. exists tld, ending.
    split; [reflexivity|]. split; [exact Ht|]. split; [exact Hat|].
    now apply at_end_spec.
Qed.

(** [validate_email] accepts exactly the texts [local@domain.tld], each part
    non-empty and free of whitespace and of "@", with or without one line
    feed after them. *)
Theorem validate_email_spec email :
  validate_email email = true <->
  exists local domain tld ending,
    email = local +:+ "@" +:+ domain +:+ "." +:+ tld +:+ ending /\
    (ending = EmptyString \/ ending = String "010" EmptyString) /\
    (local <> EmptyString /\ all_chars email_char local = true) /\
    (domain <> EmptyString /\ all_chars email_char domain = true) /\
    (tld <> EmptyString /\ all_chars email_char tld = true).
Proof.
  unfold validate_email. rewrite match_to_end_true.
  apply email_re_accepts.
Qed.

(** A non-empty result of the e-mail sanitizer is the lowered, trimmed and
    unescaped input, and it has the shape [local@domain.tld] that
    [validate_email] accepts (a line feed may follow, when unescaping
    produced one). *)
Theorem sanitize_email_result (html_unescape : string -> string) email cleaned :
  sanitize_email html_unescape email = cleaned ->
  cleaned <> EmptyString ->
  cleaned = html_unescape (strip (lower email)) /\
  validate_email cleaned = true /\
  exists local domain tld ending,
    cleaned = local +:+ "@" +:+ domain +:+ "." +:+ tld +:+ ending /\
    (ending = EmptyString \/ ending = String "010" EmptyString) /\
    (local <> EmptyString /\ all_chars email_char local = true) /\
    (domain <> EmptyString /\ all_chars email_char domain = true) /\
    (tld <> EmptyString /\ all_chars email_char tld = true).
Proof.
  unfold sanitize_email. intros <- Hne.
  destruct (String.eqb email EmptyString); [congruence|].
  fold (validate_email (html_unescape (strip (lower email)))) in *.
  destruct (validate_email (html_unescape (strip (lower email)))) eqn:Hv;
    cbn [negb] in *; [|congruence].
  split; [reflexivity|]. split; [exact Hv|].
  apply email_re_accepts. now apply match_to_end_true.
Qed.

(** What the phone sanitizer returns passes [validate_phone] as soon as it
    has ten characters. *)
Theorem sanitize_phone_validates phone cleaned :
  sanitize_phone phone = Some cleaned ->
  (validate_phone cleaned = true <-> (10 <= String.length cleaned)%nat).
Proof.
  intros (kept & -> & Hkept)%sanitize_phone_some.
  assert (Hall : all_chars phone_class (strip kept) = true)
    by (unfold strip; now apply rstrip_keeps, lstrip_keeps).
  unfold validate_phone, phone_re. rewrite match_to_end_true.
  rewrite at_least_spec by reflexivity. tauto.
Qed.

End Validation.

(** The e-mail sanitizer on "  FOO@BAR.com ", with no entity to unescape. *)
Lemma sanitize_email_result_witness :
  Models.validate_email "foo@bar.com" = true.
Proof.
  destruct (sanitize_email_result id "  FOO@BAR.com " "foo@bar.com")
    as (_ & H & _).
  - vm_compute. reflexivity.
  - discriminate.
  - exact H.
Defined.

Lemma sanitize_phone_validates_witness :
  Models.validate_phone "+1 (555) 010-9999" = true.
Proof.
  apply (sanitize_phone_validates (Some "tel: +1 (555) 010-9999")).
  - vm_compute. reflexivity.
  - vm_compute. lia.
Defined.

(** ** CSRF token store: cleaning, and the life of a token *)

Section CsrfLifecycle.

Import Csrf.

Variable sha256_hexdigest : string -> string.

Local Open Scope Z_scope.

(** Cleaning keeps exactly the entries that have not expired at the reading
    of the clock, each with its expiry. *)
Theorem clean_expired_tokens_spec
    (csrf_tokens : gmap string datetime) (current_time : datetime)
    (token_hash : string) (expiry : datetime) :
  clean_expired_tokens csrf_tokens current_time !! token_hash = Some expiry
  <-> csrf_tokens !! token_hash = Some expiry /\ current_time <= expiry.
Proof.
  rewrite (lookup_clean_expired_tokens sha256_hexdigest).
  destruct (csrf_tokens !! token_hash) as [e|];
    [|split; [|intros [He _]]; congruence].
  destruct (Z.ltb_spec e current_time).
  - split; [discriminate|]. intros [He Hle]. injection He as ->. lia.
  - split.
    + intros He. injection He as ->. split; [reflexivity|lia].
    + now intros [He _].
Qed.

(** After a token is issued, the store holds no entry that had expired at
    the cleaning: every entry is the new one or expires at the cleaning
    reading or later. *)
Theorem generate_csrf_token_prunes
    (csrf_tokens : gmap string datetime) (clean_time issue_time : datetime)
    (new_token token_hash : string) (expiry : datetime) :
  snd (generate_csrf_token sha256_hexdigest csrf_tokens clean_time issue_time
         new_token) !! token_hash = Some expiry ->
  (token_hash = sha256_hexdigest new_token /\
   expiry = issue_time + minutes TOKEN_EXPIRY_MINUTES) \/
  (csrf_tokens !! token_hash = Some expiry /\ clean_time <= expiry).
Proof.
  unfold generate_csrf_token. cbn [snd].
  destruct (decide (token_hash = sha256_hexdigest new_token)) as [->|Hne].
  - rewrite lookup_insert_eq. intros H. injection H as <-. now left.
  - rewrite lookup_insert_ne by congruence.
    rewrite (lookup_clean_expired_tokens sha256_hexdigest).
    destruct (csrf_tokens !! token_hash) as [e|]; [|discriminate].
    destruct (Z.ltb_spec e clean_time); [discriminate|].
    intros He. injection He as ->. right. split; [reflexivity|lia].
Qed.

(** The life of an issued token: it is the token handed out, it expires
    thirty minutes after the issue reading, it is accepted at every reading
    up to the expiry, and at a later reading it is refused and its entry
    is removed. *)
Theorem issued_token_lifecycle
    (csrf_tokens : gmap string datetime) (clean_time issue_time : datetime)
    (new_token : string) (now : datetime) :
  new_token <> EmptyString ->
  let issued :=
    generate_csrf_token sha256_hexdigest csrf_tokens clean_time issue_time
      new_token in
  let expiry := snd (fst issued) in
  let store := snd issued in
  fst (fst issued) = new_token /\
  expiry = issue_time + 1800 * 1000000 /\
  (now <= expiry ->
   verify_csrf_token sha256_hexdigest store now (Some new_token)
   = (true, store)) /\
  (expiry < now ->
   verify_csrf_token sha256_hexdigest store now (Some new_token)
   = (false, delete (sha256_hexdigest new_token) store) /\
   forall later,
     verify_csrf_token sha256_hexdigest
       (delete (sha256_hexdigest new_token) store) later (Some new_token)
     = (false, delete (sha256_hexdigest new_token) store)).
Proof.
  intros Hne issued expiry store.
  assert (Hk : store !! sha256_hexdigest new_token = Some expiry)
    by apply lookup_insert_eq.
  split; [reflexivity|]. split; [reflexivity|]. split.
  - intros Hle. now apply verify_valid with expiry.
  - intros Hlt. rewrite (verify_present _ _ _ _ _ Hne Hk).
    destruct (Z.ltb_spec expiry now); [|lia].
    split; [reflexivity|]. intros later.
    destruct new_token as [|c t]; [congruence|].
    unfold verify_csrf_token. now rewrite lookup_delete_eq.
Qed.

(** Verification never adds an entry and never changes an expiry: whatever
    the store holds afterwards, it held before. *)
Theorem verify_csrf_token_shrinks
    (csrf_tokens : gmap string datetime) (now : datetime)
    (token : option string) (token_hash : string) (expiry : datetime) :
  snd (verify_csrf_token sha256_hexdigest csrf_tokens now token) !! token_hash
  = Some expiry ->
  csrf_tokens !! token_hash = Some expiry.
Proof.
  destruct token as [[|c t]|]; cbn [verify_csrf_token snd]; try tauto.
  destruct (csrf_tokens !! sha256_hexdigest (String c t)) as [e|];
    cbn [snd]; [|tauto].
  destruct (e <? now); cbn [snd]; [|tauto].
  intros H. apply lookup_delete_Some in H. tauto.
Qed.

(** A token refused once is refused at every later verification on the
    store that the refusal left, whatever the clock reads then. *)
Theorem refused_stays_refused
    (csrf_tokens store : gmap string datetime) (now later : datetime)
    (token : option string) :
  verify_csrf_token sha256_hexdigest csrf_tokens now token = (false, store) ->
  verify_csrf_token sha256_hexdigest store later token = (false, store).
Proof.
  destruct token as [[|c t]|]; cbn [verify_csrf_token].
  - intros H. now injection H as <-.
  - destruct (csrf_tokens !! sha256_hexdigest (String c t)) as [e|] eqn:Hk.
    + destruct (e <? now); [|discriminate].
      intros H. injection H as <-. now rewrite lookup_delete_eq.
    + intros H. injection H as <-. now rewrite Hk.
  - intros H. now injection H as <-.
Qed.

End CsrfLifecycle.

Lemma generate_csrf_token_prunes_witness :
  (100 <= 150)%Z.
Proof.
  destruct (generate_csrf_token_prunes id {[ "old" := 50%Z; "live" := 150%Z ]}
              100 100 "new" "live" 150%Z) as [[H _]|[_ H]].
  - vm_compute. reflexivity.
  - discriminate H.
  - exact H.
Defined.

Lemma issued_token_lifecycle_witness :
  Csrf.verify_csrf_token id {[ "new" := 1800000100%Z ]} 200 (Some "new")
  = (true, {[ "new" := 1800000100%Z ]}).
Proof.
  destruct (issued_token_lifecycle id ∅ 100 100 "new" 200) as (_ & _ & H & _).
  - discriminate.
  - apply H. vm_compute. discriminate.
Defined.

Lemma verify_csrf_token_shrinks_witness :
  ({[ "a" := 10%Z; "b" := 99%Z ]} : gmap string Z) !! "b" = Some 99%Z.
Proof.
  apply (verify_csrf_token_shrinks id _ 50 (Some "a")).
  vm_compute. reflexivity.
Defined.

Lemma refused_stays_refused_witness :
  Csrf.verify_csrf_token id (∅ : gmap string Z) 5 (Some "a") = (false, ∅).
Proof.
  apply (refused_stays_refused id {[ "a" := 10%Z ]} ∅ 50 5 (Some "a")).
  vm_compute. reflexivity.
Defined.

(** ** Rate limiter: the remaining count, the retry delay, the window *)

Section RateLimiterWindow.

Import Config RateLimiter.

Variable settings : Settings.

Local Open Scope Q_scope.

(** A call is admitted exactly when the remaining count read just before it,
    at the same reading, is positive. *)
Theorem admitted_iff_remaining self now ip endpoint :
  RATE_LIMIT_ENABLED settings = true ->
  (fst (check_rate_limit settings self now ip endpoint) = Returns (true, 0%Z)
   <-> (0 < fst (get_remaining settings self now ip endpoint))%Z).
Proof.
  intros En. rewrite (check_rate_limit_enabled _ _ _ _ _ En). cbv zeta.
  unfold get_remaining.
  destruct (requests self !! key_of ip endpoint) as [l|];
    cbn [default from_option id fst].
  - set (kept := in_window _ l).
    destruct (Z.leb_spec (get_limit settings endpoint)
                         (Z.of_nat (length kept))); cbn [fst].
    + split; [intros Hadm; now apply refusal_not_admitted in Hadm|lia].
    + split; [lia|reflexivity].
  - cbn [in_window List.filter length].
    destruct (Z.leb_spec (get_limit settings endpoint) (Z.of_nat 0));
      cbn [fst].
    + split; [intros Hadm; now apply refusal_not_admitted in Hadm|lia].
    + split; [lia|reflexivity].
Qed.



Lemma in_window_incl ws l t : In t (in_window ws l) -> In t l.
Proof. unfold in_window. intros H. now apply List.filter_In in H. Qed.

Lemma int_lt_succ (x : Q) (z : Z) :
  (0 <= z)%Z -> x < inject_Z z + 1 -> (int x <= z)%Z.
Proof.
  destruct x as [n d]. unfold Qlt, Qplus, inject_Z, int. cbn [Qnum Qden].
  intros Hz H.
  destruct (Z.lt_ge_cases n 0) as [Hn|Hn].
  - pose proof (Z.quot_le_mono n 0 (Z.pos d) ltac:(lia) ltac:(lia)) as Hq.
    rewrite Z.quot_0_l in Hq by lia. lia.
  - rewrite Z.quot_div_nonneg by lia.
    apply Z.lt_succ_r. apply Z.div_lt_upper_bound; lia.
Qed.

Lemma in_window_after ws l t : In t (in_window ws l) -> ws < t.
Proof.
  unfold in_window. intros H. apply List.filter_In in H.
  now apply float_gt_true.
Qed.

(** The two roundings of the delay move it by at most a quarter of a second
    each, for a window and readings of magnitude at most [2^50]: the delay
    of a timestamp that is in the window and not later than the reading is
    less than a second above the window length. *)
Lemma retry_delay_upper oldest w now delay :
  (0 <= w <= 2 ^ 50)%Z ->
  Qabs now <= inject_Z (2 ^ 50) ->
  now - inject_Z w < oldest ->
  oldest <= now ->
  retry_delay oldest w now = Some delay ->
  delay < inject_Z w + 1.
Proof.
  intros Hw Hnow Hlo Hhi.
  unfold retry_delay, Float64.of_int, Float64.add, Float64.sub.
  assert (H53 : (2 ^ 50 < 2 ^ 53)%Z) by (apply Z.pow_lt_mono_r; lia).
  destruct (round_int w) as (fw & -> & Hfw); [lia|].
  pose proof (inject_pow_succ 50 ltac:(lia)) as H51.
  pose proof (inject_pow_succ 51 ltac:(lia)) as H52.
  change (50 + 1)%Z with 51%Z in *. change (51 + 1)%Z with 52%Z in *.
  pose proof (inject_pow_ge_1 50 ltac:(lia)) as H1.
  assert (Hw0 : inject_Z 0 <= inject_Z w) by (rewrite <- Zle_Qle; lia).
  change (inject_Z 0) with 0 in Hw0.
  assert (Hw1 : inject_Z w <= inject_Z (2 ^ 50))
    by (rewrite <- Zle_Qle; lia).
  apply Qabs_Qle_condition in Hnow. destruct Hnow as [Hn1 Hn2].
  destruct (round_error (oldest + fw)) as (s & -> & Hs).
  { apply Qabs_Qlt_condition. split; lra. }
  apply Qabs_Qle_condition in Hs. destruct Hs as [Hs1 Hs2].
  destruct (round_error (s - now)) as (d & -> & Hd).
  { apply Qabs_Qlt_condition. split; lra. }
  apply Qabs_Qle_condition in Hd. destruct Hd as [Hd1 Hd2].
  intros [= <-]. lra.
Qed.

(** The delay a refused call reports is never negative, and for a window and
    a reading of magnitude at most [2^50], when no stored timestamp of the
    key is later than the reading of the call, it is at most the window
    length.  The delay is the one float arithmetic gives, each of its two
    operations rounded. *)
Theorem retry_after_bounds self now ip endpoint retry_after self' :
  (0 <= window_seconds self <= 2 ^ 50)%Z ->
  Qabs now <= inject_Z (2 ^ 50) ->
  Forall (fun t => t <= now)
         (default [] (requests self !! key_of ip endpoint)) ->
  check_rate_limit settings self now ip endpoint
  = (Returns (false, retry_after), self') ->
  (0 <= retry_after <= window_seconds self)%Z.
Proof.
  intros Hw Hnow Hpast Hc.
  destruct (RATE_LIMIT_ENABLED settings) eqn:En;
    [|unfold check_rate_limit in Hc; rewrite En in Hc; discriminate].
  rewrite (check_rate_limit_enabled _ _ _ _ _ En) in Hc. cbv zeta in Hc.
  set (kept := in_window _ _) in Hc.
  destruct (_ <=? _)%Z; [|discriminate].
  unfold refusal in Hc.
  destruct kept as [|x kept'] eqn:Ek; [discriminate|].
  destruct (min_spec (x :: kept')) as (oldest & Hmin & Hin & _);
    [discriminate|].
  rewrite Hmin in Hc.
  destruct (retry_delay _ _ _) as [delay|] eqn:Ed; [|discriminate].
  injection Hc as <- _.
  assert (Hold : oldest <= now).
  { rewrite List.Forall_forall in Hpast. apply Hpast.
    apply in_window_incl with (now - inject_Z (window_seconds self)).
    fold kept. rewrite Ek. exact Hin. }
  assert (Hlo : now - inject_Z (window_seconds self) < oldest).
  { apply in_window_after
      with (default [] (requests self !! key_of ip endpoint)).
    fold kept. rewrite Ek. exact Hin. }
  assert (Hint : (int delay <= window_seconds self)%Z).
  { apply int_lt_succ; [lia|].
    now apply (retry_delay_upper oldest (window_seconds self) now). }
  lia.
Qed.

(** Reading the remaining count does not change what later calls answer:
    a call of any client on any endpoint, at the same or a later reading,
    has the outcome it would have had without the read. *)
Theorem get_remaining_harmless self t1 t2 ip endpoint ip' endpoint' :
  t1 <= t2 ->
  fst (check_rate_limit settings
         (snd (get_remaining settings self t1 ip endpoint)) t2 ip' endpoint')
  = fst (check_rate_limit settings self t2 ip' endpoint').
Proof.
  intros Hle.
  assert (Hw : window_seconds (snd (get_remaining settings self t1 ip endpoint))
               = window_seconds self).
  { unfold get_remaining.
    now destruct (requests self !! key_of ip endpoint). }
  destruct (decide (key_of ip' endpoint' = key_of ip endpoint)) as [Hk|Hk].
  - destruct (RATE_LIMIT_ENABLED settings) eqn:En;
      [|unfold check_rate_limit; now rewrite En].
    rewrite !(check_rate_limit_enabled _ _ _ _ _ En). cbv zeta.
    rewrite Hw, Hk. unfold get_remaining.
    destruct (requests self !! key_of ip endpoint) as [l|] eqn:Hl;
      cbn [snd requests].
    + rewrite lookup_insert_eq. cbn [default from_option id].
      rewrite in_window_twice by lra.
      now destruct (_ <=? _)%Z.
    + rewrite Hl. now destruct (_ <=? _)%Z.
  - apply check_rate_limit_local; [|exact Hw].
    unfold get_remaining.
    destruct (requests self !! key_of ip endpoint) as [l|];
      cbn [snd requests]; [|reflexivity].
    now rewrite lookup_insert_ne by congruence.
Qed.




End RateLimiterWindow.

Section RateLimiterWindowExamples.

Import Config RateLimiter.

Local Open Scope Q_scope.

(** A fresh limiter has requests left for the e-mail endpoint, so its first
    call is admitted. *)
Lemma admitted_iff_remaining_witness :
  (0 < fst (get_remaining default_settings init 0 "10.0.0.1"
              "/api/email/send-results"))%Z.
Proof.
  apply (admitted_iff_remaining default_settings init 0 "10.0.0.1"
           "/api/email/send-results" eq_refl).
  vm_compute. reflexivity.
Defined.


Lemma retry_after_bounds_witness :
  (0 <= 897 <= 900)%Z.
Proof.
  pose (ip := "10.0.0.1"). pose (endpoint := "/api/email/send-results").
  pose (self3 := snd (calls default_settings init [0; 1; 2] ip endpoint)).
  apply (retry_after_bounds default_settings self3 3 ip endpoint 897%Z
           (snd (check_rate_limit default_settings self3 3 ip endpoint))).
  - vm_compute. split; discriminate.
  - vm_compute. discriminate.
  - vm_compute. repeat constructor; intro; discriminate.
  - vm_compute. reflexivity.
Defined.

Lemma get_remaining_harmless_witness :
  let ip := "10.0.0.1" in
  let endpoint := "/api/email/send-results" in
  fst (check_rate_limit default_settings
         (snd (get_remaining default_settings init 0 ip endpoint))
         1 ip endpoint)
  = Returns (true, 0%Z).
Proof.
  intros ip endpoint.
  rewrite (get_remaining_harmless default_settings init 0 1 ip endpoint).
  - vm_compute. reflexivity.
  - intro. discriminate.
Defined.


End RateLimiterWindowExamples.

(** ** Sanitizer: what the event-handler pass removes *)

Section SanitizerTruncation.

Import Text Sanitizer.

(** On text without quotes. *)
Local Abbreviation to_the_end := (Re.to_the_end (Re.none_of quotes)).

Lemma once_to_the_end p k : to_the_end k -> to_the_end (Re.once p k).
Proof.
  intros Hk [|c u] r Hu; cbn [Re.once]; [discriminate|].
  cbn [all_chars] in Hu. apply andb_true_iff in Hu as [_ Hu].
  destruct (p c); [|discriminate]. now apply Hk.
Qed.

Lemma greedy_to_the_end p k : to_the_end k -> to_the_end (Re.greedy p k).
Proof.
  intros Hk u. induction u as [|c u IH]; intros r Hu; cbn [Re.greedy].
  - now apply Hk.
  - pose proof Hu as Hcu. cbn [all_chars] in Hu.
    apply andb_true_iff in Hu as [_ Hu].
    destruct (p c); [|now apply Hk].
    destruct (Re.greedy p k u) as [r0|] eqn:G; [|now apply Hk].
    intros H. injection H as <-. now apply IH.
Qed.

Lemma opt_to_the_end p k : to_the_end k -> to_the_end (Re.opt p k).
Proof.
  intros Hk u r Hu. unfold Re.opt.
  destruct (Re.once p k u) as [r0|] eqn:O; [|now apply Hk].
  intros H. injection H as <-. now apply (once_to_the_end p k Hk u).
Qed.

Lemma greedy_all p (k : Re.cont) u r :
  all_chars p u = true -> k EmptyString = Some r -> Re.greedy p k u = Some r.
Proof.
  intros Hu Hk. induction u as [|c u IH]; [exact Hk|].
  cbn [all_chars] in Hu. apply andb_true_iff in Hu as [Hc Hu].
  cbn [Re.greedy]. now rewrite Hc, (IH Hu).
Qed.

(** A match of the handler pattern in text without quotes runs to the end
    of the text. *)
Lemma handler_match_to_the_end s n :
  all_chars (Re.none_of quotes) s = true ->
  Re.match_len handler_re false s = Some n -> n = String.length s.
Proof.
  intros Hs. unfold Re.match_len. cbn [andb].
  destruct (Re.run handler_re (fun rest => Some rest) s) as [rest|] eqn:R;
    [|discriminate].
  intros H. injection H as <-.
  enough (rest = EmptyString) as -> by (cbn; lia).
  revert R. apply (fun H => H s rest Hs). clear s rest Hs.
  unfold handler_re. cbn [app Re.lits_i map list_ascii_of_string Re.run
                          Re.how Re.accepts Re.lit_i].
  do 3 apply once_to_the_end. do 2 apply greedy_to_the_end.
  apply once_to_the_end, greedy_to_the_end, opt_to_the_end.
  intros u r Hu H.
  rewrite (greedy_all _ _ u EmptyString Hu) in H by reflexivity.
  now injection H as <-.
Qed.

Lemma sub_from_skip_all re s :
  Re.match_len re false EmptyString = None ->
  Re.sub_from re EmptyString (String.length s) s = EmptyString.
Proof.
  intros He. induction s as [|c s IH]; cbn [String.length Re.sub_from].
  - now rewrite He.
  - exact IH.
Qed.

Lemma escape_no_quotes s :
  all_chars (Re.none_of quotes) (Html.escape s) = true.
Proof.
  apply all_chars_impl
    with (p := fun x => negb (one_of "<>'" x || Ascii.eqb x dquote));
    [|apply escape_safe].
  intros c. unfold Re.none_of, quotes. cbn [one_of list_ascii_of_string existsb].
  rewrite (Ascii.eqb_sym c dquote).
  destruct (Ascii.eqb c "<"), (Ascii.eqb c ">"), (Ascii.eqb c "'"),
    (Ascii.eqb dquote c); cbn; congruence.
Qed.

(** In text without quotes the handler pass removes nothing from the
    inside: it keeps the text up to the first match and drops the rest. *)
Lemma handler_pass_prefix s :
  all_chars (Re.none_of quotes) s = true ->
  exists dropped,
    s = Re.sub handler_re EmptyString s +:+ dropped /\
    (dropped = EmptyString \/
     Re.match_len handler_re false dropped = Some (String.length dropped)).
Proof.
  unfold Re.sub. induction s as [|c s IH]; intros Hs.
  - exists EmptyString. split; [reflexivity|now left].
  - cbn [Re.sub_from].
    destruct (Re.match_len handler_re false (String c s)) as [n|] eqn:M.
    + pose proof (handler_match_to_the_end _ _ Hs M) as ->.
      cbn [String.length]. rewrite append_empty_l.
      rewrite sub_from_skip_all by reflexivity.
      exists (String c s). split; [reflexivity|now right].
    + cbn [all_chars] in Hs. apply andb_true_iff in Hs as [_ Hs].
      destruct (IH Hs) as (dropped & Heq & Hd).
      exists dropped. split; [|exact Hd].
      rewrite append_cons. now rewrite <- Heq.
Qed.

(** The cleaned text is the trimmed form of a leading part of the escaped
    cut of the input: nothing is removed from the inside, and what is
    dropped is either nothing or the rest of the text from the first
    [on...=] pattern on. *)
Theorem sanitize_text_keeps_prefix text max_length :
  exists kept dropped,
    Html.escape (slice_to text max_length) = kept +:+ dropped /\
    sanitize_text text max_length = strip kept /\
    (dropped = EmptyString \/
     Re.match_len handler_re false dropped = Some (String.length dropped)).
Proof.
  unfold sanitize_text. destruct text as [|c text].
  - exists EmptyString, EmptyString. cbn [String.eqb].
    unfold slice_to. destruct (_ <? _)%Z; destruct (Z.to_nat _);
      (split; [reflexivity|split; [reflexivity|now left]]).
  - cbn [String.eqb]. set (cut := slice_to (String c text) max_length).
    rewrite (script_re_needs_lt _ (escape_no_lt cut)).
    destruct (handler_pass_prefix _ (escape_no_quotes cut))
      as (dropped & Heq & Hd).
    exists (Re.sub handler_re EmptyString (Html.escape cut)), dropped.
    split; [exact Heq|]. split; [reflexivity|exact Hd].
Qed.

End SanitizerTruncation.

(** ** Rate limiter: a limit that is not positive *)

Section RateLimiterRaises.

Import Config RateLimiter.

Variable settings : Settings.

Local Open Scope Q_scope.

(** The call raises [ValueError], from [min] of an empty list, exactly when
    the limiter is enabled, the limit of the endpoint is zero or negative
    and the key has no timestamp in the window; with a positive limit it
    never raises it. *)
Theorem check_rate_limit_raises self now ip endpoint :
  fst (check_rate_limit settings self now ip endpoint) = Raises ValueError
  <-> RATE_LIMIT_ENABLED settings = true /\
      (get_limit settings endpoint <= 0)%Z /\
      in_window (now - inject_Z (window_seconds self))
                (default [] (requests self !! key_of ip endpoint)) = [].
Proof.
  destruct (RATE_LIMIT_ENABLED settings) eqn:En.
  - rewrite (check_rate_limit_enabled _ _ _ _ _ En). cbv zeta.
    set (kept := in_window _ _).
    destruct (Z.leb_spec (get_limit settings endpoint)
                         (Z.of_nat (length kept))) as [Hfull|Hroom];
      cbn [fst].
    + unfold refusal. destruct kept as [|x kept'] eqn:Ek.
      * cbn [min length] in *. split; [auto|reflexivity].
      * cbn [min]. split; [|intros (_ & _ & H); discriminate].
        destruct (retry_delay _ _ _); discriminate.
    + split; [discriminate|]. intros (_ & Hlim & Hk).
      rewrite Hk in Hroom. cbn [length] in Hroom. lia.
  - unfold check_rate_limit. rewrite En. cbn [negb fst].
    split; [discriminate|]. intros [H _]. discriminate.
Qed.

End RateLimiterRaises.
